(** * gpg_exchange.exchange: the Exchange facade over an OpenPGP engine

    A shallow embedding of [src/gpg_exchange/exchange.py].  The class
    [Exchange] wraps one [gpg.Context]; every method is a short sequence of
    calls on that context, with Python exceptions translated on the way.

    - Python [str] (byte strings of Python 2, which the iterator call
      [.next()] in [find_key] fixes as the language version) is [string].
    - The [gpg] library is not part of the repository: it is the record
      [Engine], a parameter of every definition.  Its methods act on a world
      state [W] (keyring, passphrase callback, descriptors) that is threaded
      through every call and survives a raised exception, as in Python.
    - Exceptions are the type [exn]; a computation is a function from the
      world to an [outcome] and the new world. *)

From Stdlib Require Import ZArith List Ascii String.
Import ListNotations.
Local Open Scope string_scope.

(** ** Import results, as [op_import] returns them *)

(** One entry of [result.imports].  The attribute [fpr] is read inside the
    guarded block of [_get_imported_key]; [None] stands for an object that
    has no such attribute. *)
Record ImportStatus := { fpr : option string }.

(** The object [op_import] hands back.  Python checks no type: the object may
    lack any of the three attributes the facade reads ([None], which has none
    of them, is the record with class name "NoneType" and no attribute), and
    [None] in a field stands for the missing attribute.  The class name is
    what the text of an [AttributeError] quotes. *)
Record ImportResult := {
  class_name : string;
  considered : option Z;
  imported : option Z;
  imports : option (list ImportStatus) }.

(** ** Exceptions *)

Inductive exn :=
| StopIteration
| KeyError (key : string)
| IndexError (msg : string)
| AttributeError (msg : string)
| ValueError (msg : string) (detail : option ImportResult)
    (* args are (msg,) or (msg, result) *)
| GPGMEError (code : Z) (msg : string)
    (* gpg.errors.GPGMEError, with what getcode() reports and its message *)
| OtherError (cls msg : string).

Inductive outcome (A : Type) :=
| Ok (a : A)
| Raise (e : exn).
Arguments Ok {A} a.
Arguments Raise {A} e.

(** [obj.name] on an import result: the value, or [AttributeError]. *)
Definition getattr {A : Type} (obj : ImportResult) (name : string)
    (field : option A) : outcome A :=
  match field with
  | Some a => Ok a
  | None =>
      Raise (AttributeError
               ("'" ++ class_name obj ++ "' object has no attribute '"
                    ++ name ++ "'"))
  end.

(** ** Data buffers ([gpg.Data]) and the caller's streams *)

Inductive backing := Memory | Descriptor (fd : Z).

(** A buffer: where its bytes live, the bytes, and the read/write offset. *)
Record Data := { source : backing; content : string; pos : nat }.

(** A pre-opened Python file object handed to the file variants. *)
Record File := { fileno : Z; fcontent : string; fpos : nat }.

(** [gpg.Data(string)] and [gpg.Data()]: a fresh memory buffer at offset 0. *)
Definition Data_new (init : option string) : Data :=
  {| source := Memory;
     content := match init with Some s => s | None => "" end;
     pos := 0 |}.

(** [data.new_from_fd(file)]: the buffer now stands for the descriptor. *)
Definition new_from_fd (data : Data) (file : File) : Data :=
  {| source := Descriptor (fileno file);
     content := fcontent file;
     pos := fpos file |}.

Inductive whence := SEEK_SET | SEEK_CUR | SEEK_END.

(** [data.seek(offset, whence)] for the non-negative offsets the facade uses. *)
Definition seek (data : Data) (offset : nat) (w : whence) : Data :=
  let target :=
    match w with
    | SEEK_SET => offset
    | SEEK_CUR => pos data + offset
    | SEEK_END => String.length (content data) + offset
    end in
  if Nat.leb target (String.length (content data))
  then {| source := source data; content := content data; pos := target |}
  else data.

(** [data.read()]: everything from the offset to the end; the offset moves
    to the end. *)
Definition read (data : Data) : string * Data :=
  let n := String.length (content data) in
  (substring (pos data) (n - pos data) (content data),
   {| source := source data; content := content data; pos := n |}).

(** ** The recipients argument, a dynamically typed Python value *)

#[warnings="-register-all"]
Inductive value (Key : Type) :=
| VNone
| VKey (k : Key)
| VList (items : list (value Key))
| VTuple (items : list (value Key))
| VSet (members : list (value Key))
| VGenerator (yields : list (value Key))
| VStr (s : string).
Arguments VNone {Key}.
Arguments VKey {Key} k.
Arguments VList {Key} items.
Arguments VTuple {Key} items.
Arguments VSet {Key} members.
Arguments VGenerator {Key} yields.
Arguments VStr {Key} s.

(** [isinstance(v, (list, tuple))] *)
Definition isinstance_list_tuple {Key} (v : value Key) : bool :=
  match v with
  | VList _ | VTuple _ => true
  | _ => false
  end.

(** ** The engine *)

(** What the generator [keylist(pattern)] will do when it is advanced: yield
    an entry and go on, stop, or fail with an engine error. *)
Inductive listing (Key : Type) :=
| Exhausted
| Entry (k : Key) (rest : listing Key)
| Broken (e : exn).
Arguments Exhausted {Key}.
Arguments Entry {Key} k rest.
Arguments Broken {Key} e.

(** The ciphertext argument of [decrypt]: [decrypt_text] passes the string
    itself, [decrypt_file] a buffer. *)
Inductive input :=
| InStr (s : string)
| InData (d : Data).

(** The methods of [gpg.Context] the facade calls, and the constant
    [gpg.errors.NO_DATA].  A method that fills a sink returns the sink as it
    leaves it. *)
Record Engine (Key W : Type) := {
  NO_DATA : Z;
  keylist : string -> W -> listing Key * W;
  op_import : Data -> W -> outcome ImportResult * W;
  op_export : string -> Z -> Data -> W -> outcome Data * W;
  encrypt : Data -> value Key -> Data -> bool -> W -> outcome Data * W;
  decrypt : input -> Data -> W -> outcome Data * W }.
Arguments NO_DATA {Key W} _.
Arguments keylist {Key W} _ _ _.
Arguments op_import {Key W} _ _ _.
Arguments op_export {Key W} _ _ _ _ _.
Arguments encrypt {Key W} _ _ _ _ _ _.
Arguments decrypt {Key W} _ _ _ _.

(** ** Computations: world passing with exceptions *)

Definition M (W A : Type) := W -> outcome A * W.

Definition ret {W A} (a : A) : M W A := fun w => (Ok a, w).

Definition raise {W A} (e : exn) : M W A := fun w => (Raise e, w).

Definition bind {W A B} (c : M W A) (k : A -> M W B) : M W B :=
  fun w =>
    match c w with
    | (Ok a, w') => k a w'
    | (Raise e, w') => (Raise e, w')
    end.

(** [try: c  except ...: h]; the handler answers [None] for an exception
    whose class no [except] clause names, which then goes on unchanged. *)
Definition try_except {W A} (c : M W A) (h : exn -> option (M W A)) : M W A :=
  fun w =>
    match c w with
    | (Ok a, w') => (Ok a, w')
    | (Raise e, w') =>
        match h e with
        | Some handler => handler w'
        | None => (Raise e, w')
        end
    end.

(** A computation that cannot change the world. *)
Definition lift_outcome {W A} (o : outcome A) : M W A := fun w => (o, w).

(** A call that cannot raise. *)
Definition total {W A} (f : W -> A * W) : M W A :=
  fun w => let (a, w') := f w in (Ok a, w').

Notation "x <- c ;; k" := (bind c (fun x => k))
  (at level 61, c at next level, right associativity).

(** [next()] on a generator *)
Definition next {Key} (g : listing Key) : outcome Key :=
  match g with
  | Exhausted => Raise StopIteration
  | Entry k _ => Ok k
  | Broken e => Raise e
  end.

(** ** class Exchange *)

Section Exchange.
Context {Key W : Type}.
(* str(error), the built-in *)
Variable str : exn -> string.
(* self._gpg *)
Variable gpg : Engine Key W.

Definition find_key (pattern : string) : M W Key :=
  try_except
    (g <- total (keylist gpg pattern) ;; lift_outcome (next g))
    (fun e => match e with
              | StopIteration => Some (raise (KeyError pattern))
              | _ => None
              end).

(** [import_result.imports[0].fpr]: two attribute reads and an index. *)
Definition first_fpr (import_result : ImportResult) : outcome string :=
  match getattr import_result "imports" (imports import_result) with
  | Raise e => Raise e
  | Ok [] => Raise (IndexError "list index out of range")
  | Ok (status :: _) =>
      match fpr status with
      | None => Raise (AttributeError "'ImportStatus' object has no attribute 'fpr'")
      | Some f => Ok f
      end
  end.

Definition _get_imported_key (import_result : ImportResult) : M W Key :=
  try_except
    (fpr <- lift_outcome (first_fpr import_result) ;; find_key fpr)
    (fun error => match error with
                  | KeyError _ | IndexError _ | AttributeError _ =>
                      Some (raise (ValueError (str error) (Some import_result)))
                  | _ => None
                  end).

Definition import_key (pubkey : string) : M W (Key * ImportResult) :=
  let import_key := Data_new (Some pubkey) in
  result <- op_import gpg import_key ;;
  n_considered <-
    lift_outcome (getattr result "considered" (considered result)) ;;
  if negb (n_considered =? 1)%Z then
    raise (ValueError "Exactly one public key must be provided" (Some result))
  else
    n_imported <-
      lift_outcome (getattr result "imported" (imported result)) ;;
    if negb (n_imported =? 1)%Z then
      raise (ValueError "Given public key must be valid" (Some result))
    else
      key <- _get_imported_key result ;;
      ret (key, result).

(** A static method: rewind, then read to the end. *)
Definition _read_data (data : Data) : string :=
  let data := seek data 0 SEEK_SET in
  fst (read data).

Definition export_key (pattern : string) : M W string :=
  let export_key := Data_new None in
  export_key <- op_export gpg pattern 0%Z export_key ;;
  ret (_read_data export_key).

(** The first four lines of [_encrypt]: what becomes of [recipients]. *)
Definition normalize_recipients (recipients : value Key) : value Key :=
  match recipients with
  | VNone => VList []
  | _ =>
      if negb (isinstance_list_tuple recipients)
      then VList [recipients]
      else recipients
  end.

(** Python returns nothing here; the model hands back the sink, which the
    caller goes on to use. *)
Definition _encrypt (plaintext ciphertext : Data) (recipients : value Key)
    (always_trust : bool) : M W Data :=
  let recipients := normalize_recipients recipients in
  encrypt gpg plaintext recipients ciphertext always_trust.

Definition encrypt_text (data : string) (recipients : value Key)
    (always_trust : bool) : M W string :=
  let plaintext := Data_new (Some data) in
  let ciphertext := Data_new None in
  ciphertext <- _encrypt plaintext ciphertext recipients always_trust ;;
  ret (_read_data ciphertext).

Definition encrypt_file (input_file output_file : File)
    (recipients : value Key) (always_trust : bool) : M W unit :=
  let plaintext := new_from_fd (Data_new None) input_file in
  let ciphertext := new_from_fd (Data_new None) output_file in
  _ <- _encrypt plaintext ciphertext recipients always_trust ;;
  ret tt.

Definition _decrypt (ciphertext : input) (plaintext : Data) : M W Data :=
  try_except
    (decrypt gpg ciphertext plaintext)
    (fun error => match error with
                  | GPGMEError code _ =>
                      if (code =? NO_DATA gpg)%Z
                      then Some (raise (ValueError "No encrypted data" None))
                      else Some (raise error)
                  | _ => None
                  end).

Definition decrypt_text (data : string) : M W string :=
  let sink := Data_new None in
  sink <- _decrypt (InStr data) sink ;;
  ret (_read_data sink).

Definition decrypt_file (input_file output_file : File) : M W unit :=
  let ciphertext := new_from_fd (Data_new None) input_file in
  let plaintext := new_from_fd (Data_new None) output_file in
  _ <- _decrypt (InData ciphertext) plaintext ;;
  ret tt.
End Exchange.

(** ** Construction *)

(** What [__init__] asks of the library: a new context, and three settings
    of it.  [C] is the context object, [P] the passphrase argument that is
    registered as the callback.  Each call may raise; a setter returns the
    context as it leaves it. *)
Record Library (C P W : Type) := {
  PINENTRY_MODE_LOOPBACK : Z;
  new_context : bool -> W -> outcome C * W;
  set_home_dir : C -> string -> W -> outcome C * W;
  set_pinentry_mode : C -> Z -> W -> outcome C * W;
  set_passphrase_cb : C -> P -> W -> outcome C * W }.
Arguments PINENTRY_MODE_LOOPBACK {C P W} _.
Arguments new_context {C P W} _ _ _.
Arguments set_home_dir {C P W} _ _ _ _.
Arguments set_pinentry_mode {C P W} _ _ _ _.
Arguments set_passphrase_cb {C P W} _ _ _ _.

Section Construction.
Context {C P W : Type}.
(* the module gpg *)
Variable lib : Library C P W.

(** The result is [self._gpg]; the defaults of the three arguments are
    [True], [None] and [None]. *)
Definition __init__ (armor : bool) (home_dir : option string)
    (passphrase : option P) : M W C :=
  gpg <- new_context lib armor ;;
  gpg <- match home_dir with
         | Some d => set_home_dir lib gpg d
         | None => ret gpg
         end ;;
  match passphrase with
  | Some p =>
      gpg <- set_pinentry_mode lib gpg (PINENTRY_MODE_LOOPBACK lib) ;;
      set_passphrase_cb lib gpg p
  | None => ret gpg
  end.
End Construction.

(** One call of [__init__] on the library. *)
Inductive lib_call (P : Type) :=
| Call_Context (armor : bool)
| Call_set_home_dir (home_dir : string)
| Call_set_pinentry_mode (mode : Z)
| Call_set_passphrase_cb (passphrase : P).
Arguments Call_Context {P} armor.
Arguments Call_set_home_dir {P} home_dir.
Arguments Call_set_pinentry_mode {P} mode.
Arguments Call_set_passphrase_cb {P} passphrase.

Definition noted {L W A} (c : L) (f : W -> A * W)
    : W * list L -> A * (W * list L) :=
  fun st => let (a, w') := f (fst st) in (a, (w', (snd st ++ [c])%list)).

(** The same library, keeping a log of the calls it receives. *)
Definition traced_lib {C P W} (lib : Library C P W)
    : Library C P (W * list (lib_call P)) :=
  {| PINENTRY_MODE_LOOPBACK := PINENTRY_MODE_LOOPBACK lib;
     new_context := fun a => noted (Call_Context a) (new_context lib a);
     set_home_dir := fun c d =>
       noted (Call_set_home_dir d) (set_home_dir lib c d);
     set_pinentry_mode := fun c m =>
       noted (Call_set_pinentry_mode m) (set_pinentry_mode lib c m);
     set_passphrase_cb := fun c p =>
       noted (Call_set_passphrase_cb p) (set_passphrase_cb lib c p) |}.

(** The calls [__init__] makes when none of them raises. *)
Definition init_calls {P} (armor : bool) (home_dir : option string)
    (passphrase : option P) (loopback : Z) : list (lib_call P) :=
  (Call_Context armor
     :: match home_dir with
        | Some d => [Call_set_home_dir d]
        | None => []
        end
     ++ match passphrase with
        | Some p => [Call_set_pinentry_mode loopback; Call_set_passphrase_cb p]
        | None => []
        end)%list.

(** ** Who a message is for *)

(** The keys a caller names with [recipients], in the words of the docstring
    of [encrypt_text]: none for [None], the key for a single key, the keys
    for a list (or a tuple) of keys.  Any other value names no keys. *)
Fixpoint keys_of {Key} (items : list (value Key)) : option (list Key) :=
  match items with
  | [] => Some []
  | VKey k :: rest =>
      match keys_of rest with
      | Some ks => Some (k :: ks)
      | None => None
      end
  | _ :: _ => None
  end.

Definition recipient_keys {Key} (recipients : value Key) : option (list Key) :=
  match recipients with
  | VNone => Some []
  | VKey k => Some [k]
  | VList items | VTuple items => keys_of items
  | _ => None
  end.

(** ** Observing the calls on the context *)

(** One call of a method of [self._gpg], with its arguments. *)
Inductive call (Key : Type) :=
| Call_keylist (pattern : string)
| Call_op_import (data : Data)
| Call_op_export (pattern : string) (mode : Z) (sink : Data)
| Call_encrypt (plaintext : Data) (recipients : value Key) (sink : Data)
    (always_trust : bool)
| Call_decrypt (ciphertext : input) (sink : Data).
Arguments Call_keylist {Key} pattern.
Arguments Call_op_import {Key} data.
Arguments Call_op_export {Key} pattern mode sink.
Arguments Call_encrypt {Key} plaintext recipients sink always_trust.
Arguments Call_decrypt {Key} ciphertext sink.

Definition logged {Key W A} (c : call Key) (f : W -> A * W)
    : W * list (call Key) -> A * (W * list (call Key)) :=
  fun st => let (a, w') := f (fst st) in (a, (w', (snd st ++ [c])%list)).

(** The same engine, keeping a log of the calls it receives. *)
Definition traced {Key W} (gpg : Engine Key W)
    : Engine Key (W * list (call Key)) :=
  {| NO_DATA := NO_DATA gpg;
     keylist := fun p => logged (Call_keylist p) (keylist gpg p);
     op_import := fun d => logged (Call_op_import d) (op_import gpg d);
     op_export := fun p m d =>
       logged (Call_op_export p m d) (op_export gpg p m d);
     encrypt := fun p r c t =>
       logged (Call_encrypt p r c t) (encrypt gpg p r c t);
     decrypt := fun c p => logged (Call_decrypt c p) (decrypt gpg c p) |}.

(** What a failure brings with it from the engine: the import result among
    its arguments, or the code of an engine error. *)
Inductive engine_detail :=
| Detail_result (r : ImportResult)
| Detail_code (code : Z).

Definition carried (e : exn) : option engine_detail :=
  match e with
  | ValueError _ (Some r) => Some (Detail_result r)
  | GPGMEError code _ => Some (Detail_code code)
  | _ => None
  end.

(** ** A small engine to run the facade on *)

Module Toy.

(** Keys are their fingerprints; the world is the keyring, in listing order. *)
Definition Key := string.
Definition World := list string.

Fixpoint listing_of (ks : list Key) : listing Key :=
  match ks with
  | [] => Exhausted
  | k :: rest => Entry k (listing_of rest)
  end.

Definition matching (pattern : string) (ring : World) : list Key :=
  filter (fun k => prefix pattern k) ring.

Definition fill (sink : Data) (bytes : string) : Data :=
  {| source := source sink; content := bytes; pos := String.length bytes |}.

Definition is_key (v : value Key) : bool :=
  match v with VKey _ => true | _ => false end.

Definition text_of (c : input) : string :=
  match c with
  | InStr s => s
  | InData d => fst (read d)
  end.

Definition str (e : exn) : string :=
  match e with
  | StopIteration => ""
  | KeyError k => "'" ++ k ++ "'"
  | IndexError m | AttributeError m | ValueError m _ | GPGMEError _ m => m
  | OtherError _ m => m
  end.

(** An import result as the engine builds it, and the [None] of Python. *)
Definition result (n_considered n_imported : Z) (l : list ImportStatus)
    : ImportResult :=
  {| class_name := "ImportResult";
     considered := Some n_considered;
     imported := Some n_imported;
     imports := Some l |}.

Definition none : ImportResult :=
  {| class_name := "NoneType";
     considered := None; imported := None; imports := None |}.

(** The payload is one fingerprint; an empty payload holds no key, a known
    fingerprint is considered but not imported. *)
Definition import (d : Data) (ring : World) : outcome ImportResult * World :=
  let f := content d in
  if String.eqb f "" then
    (Ok (result 0 0 []), ring)
  else if existsb (String.eqb f) ring then
    (Ok (result 1 0 [ {| fpr := Some f |} ]), ring)
  else
    (Ok (result 1 1 [ {| fpr := Some f |} ]), (ring ++ [f])%list).

(** The cipher is a header in front of the plaintext. *)
Definition gpg : Engine Key World :=
  {| NO_DATA := 58;
     keylist := fun pattern ring => (listing_of (matching pattern ring), ring);
     op_import := import;
     op_export := fun pattern _ sink ring =>
       (Ok (fill sink (String.concat ";" (matching pattern ring))), ring);
     encrypt := fun plaintext recipients sink _ ring =>
       match recipients with
       | VList items | VTuple items =>
           if forallb is_key items
           then (Ok (fill sink ("PGP:" ++ fst (read plaintext))), ring)
           else (Raise (OtherError "TypeError" "recipient is not a key"), ring)
       | _ => (Raise (OtherError "TypeError" "recipients is not a sequence"), ring)
       end;
     decrypt := fun ciphertext sink ring =>
       let text := text_of ciphertext in
       if prefix "PGP:" text
       then (Ok (fill sink (substring 4 (String.length text - 4) text)), ring)
       else (Raise (GPGMEError 58 "No data"), ring) |}.

(** Variants with one method replaced by a fixed answer. *)
Definition with_keylist (l : listing Key) : Engine Key World :=
  {| NO_DATA := NO_DATA gpg;
     keylist := fun _ ring => (l, ring);
     op_import := op_import gpg;
     op_export := op_export gpg;
     encrypt := encrypt gpg;
     decrypt := decrypt gpg |}.

Definition with_op_import (o : outcome ImportResult) (l : listing Key)
    : Engine Key World :=
  {| NO_DATA := NO_DATA gpg;
     keylist := fun _ ring => (l, ring);
     op_import := fun _ ring => (o, ring);
     op_export := op_export gpg;
     encrypt := encrypt gpg;
     decrypt := decrypt gpg |}.

Definition with_decrypt (o : outcome Data) : Engine Key World :=
  {| NO_DATA := NO_DATA gpg;
     keylist := keylist gpg;
     op_import := op_import gpg;
     op_export := op_export gpg;
     encrypt := encrypt gpg;
     decrypt := fun _ _ ring => (o, ring) |}.

(** An engine whose import answers [o] and adds [added] to the keyring. *)
Definition with_import_effect (o : outcome ImportResult) (added : list Key)
    : Engine Key World :=
  {| NO_DATA := NO_DATA gpg;
     keylist := keylist gpg;
     op_import := fun _ ring => (o, (ring ++ added)%list);
     op_export := op_export gpg;
     encrypt := encrypt gpg;
     decrypt := decrypt gpg |}.

(** A library whose contexts are the list of settings made, newest first,
    and which refuses an empty home directory. *)
Definition lib : Library (list (lib_call string)) string nat :=
  {| PINENTRY_MODE_LOOPBACK := 4;
     new_context := fun a n => (Ok [Call_Context a], S n);
     set_home_dir := fun c d n =>
       if String.eqb d ""
       then (Raise (GPGMEError 55 "Invalid value"), S n)
       else (Ok (Call_set_home_dir d :: c), S n);
     set_pinentry_mode := fun c m n => (Ok (Call_set_pinentry_mode m :: c), S n);
     set_passphrase_cb := fun c p n => (Ok (Call_set_passphrase_cb p :: c), S n) |}.

End Toy.

(** ** A small engine with keys *)

Module Keyed.

(** Keys are single characters.  A context knows the passphrase or not, and
    holds some secret keys.  A ciphertext is the recipients, a colon, and the
    plaintext. *)
Definition Key := Ascii.ascii.
Definition World := (bool * list Key)%type.

Definition colon : Ascii.ascii := Ascii.ascii_of_nat 58.

Fixpoint split_header (s : string) : option (list Key * string) :=
  match s with
  | EmptyString => None
  | String c rest =>
      if Ascii.eqb c colon then Some ([], rest)
      else match split_header rest with
           | Some (ks, body) => Some (c :: ks, body)
           | None => None
           end
  end.

(** The passphrase opens a message for nobody; a secret key of one of the
    recipients opens a message for them. *)
Definition unlocks (w : World) (ks : list Key) : bool :=
  match ks with
  | [] => fst w
  | _ => existsb (fun k => existsb (Ascii.eqb k) (snd w)) ks
  end.

Definition gpg : Engine Key World :=
  {| NO_DATA := 58;
     keylist := fun _ w => (Exhausted, w);
     op_import := fun _ w => (Raise (GPGMEError 69 "Not implemented"), w);
     op_export := fun _ _ _ w => (Raise (GPGMEError 69 "Not implemented"), w);
     encrypt := fun plaintext recipients sink _ w =>
       match recipients with
       | VList items | VTuple items =>
           match keys_of items with
           | Some ks =>
               if forallb (fun k => negb (Ascii.eqb k colon)) ks
               then (Ok (Toy.fill sink
                           (string_of_list_ascii ks
                              ++ String colon (fst (read plaintext)))), w)
               else (Raise (GPGMEError 53 "Unusable public key"), w)
           | None => (Raise (OtherError "TypeError" "recipient is not a key"), w)
           end
       | _ => (Raise (OtherError "TypeError" "recipients is not a sequence"), w)
       end;
     decrypt := fun ciphertext sink w =>
       match split_header (Toy.text_of ciphertext) with
       | Some (ks, body) =>
           if unlocks w ks
           then (Ok (Toy.fill sink body), w)
           else (Raise (GPGMEError 17 "No secret key"), w)
       | None => (Raise (GPGMEError 58 "No data"), w)
       end |}.

End Keyed.

(** * Properties *)

(** ** Buffers *)

Lemma substring_all (s : string) : substring 0 (String.length s) s = s.
Proof.
  induction s as [|c s IH]; simpl; [reflexivity | now rewrite IH].
Qed.

(** Rewinding and reading gives the whole buffer, wherever the offset was. *)
Lemma _read_data_content (d : Data) : _read_data d = content d.
Proof.
  unfold _read_data, seek, read; simpl.
  rewrite Nat.sub_0_r. apply substring_all.
Qed.

(** ** find_key *)

Section KeyLookup.
Context {Key W : Type} (gpg : Engine Key W).

Lemma find_key_entry (pattern : string) (w w' : W) (k : Key) (rest : listing Key) :
  keylist gpg pattern w = (Entry k rest, w') ->
  find_key gpg pattern w = (Ok k, w').
Proof.
  intros H. unfold find_key, try_except, bind, total, lift_outcome.
  now rewrite H.
Qed.

Lemma find_key_exhausted (pattern : string) (w w' : W) :
  keylist gpg pattern w = (Exhausted, w') ->
  find_key gpg pattern w = (Raise (KeyError pattern), w').
Proof.
  intros H. unfold find_key, try_except, bind, total, lift_outcome.
  now rewrite H.
Qed.

Lemma find_key_broken (pattern : string) (w w' : W) (e : exn) :
  keylist gpg pattern w = (Broken e, w') ->
  find_key gpg pattern w =
  (match e with
   | StopIteration => Raise (KeyError pattern)
   | _ => Raise e
   end, w').
Proof.
  intros H. unfold find_key, try_except, bind, total, lift_outcome.
  rewrite H. now destruct e.
Qed.

(** All at once: the outcome of [find_key] as a function of the listing. *)
Lemma find_key_cases (pattern : string) (w : W) :
  find_key gpg pattern w =
  match keylist gpg pattern w with
  | (Entry k _, w') => (Ok k, w')
  | (Exhausted, w') => (Raise (KeyError pattern), w')
  | (Broken StopIteration, w') => (Raise (KeyError pattern), w')
  | (Broken e, w') => (Raise e, w')
  end.
Proof.
  destruct (keylist gpg pattern w) as [[|k rest|e] w'] eqn:H.
  - now apply find_key_exhausted.
  - now apply find_key_entry with rest.
  - rewrite (find_key_broken _ _ _ _ H). now destruct e.
Qed.

(** C4, as amended: [find_key] returns the first entry of the engine's
    listing for the pattern when there is one, and raises [KeyError] with the
    pattern when the listing ends without an entry; the one remaining outcome
    is that the listing itself fails, and then that error reaches the caller
    as it is. *)
Theorem find_key_outcome (pattern : string) (w : W) :
  find_key gpg pattern w =
  match keylist gpg pattern w with
  | (Entry k _, w') => (Ok k, w')
  | (Exhausted, w') => (Raise (KeyError pattern), w')
  | (Broken StopIteration, w') => (Raise (KeyError pattern), w')
  | (Broken e, w') => (Raise e, w')
  end.
Proof.
  exact (find_key_cases pattern w).
Qed.

End KeyLookup.

(** C4, as stated, fails: with an engine whose listing breaks, [find_key]
    neither returns an entry nor raises [KeyError]. *)
Lemma find_key_outcome_counterexample :
  let o := fst (find_key (Toy.with_keylist (Broken (GPGMEError 1 "General error")))
                  "alice" ["ABCD"]) in
  o = Raise (GPGMEError 1 "General error")
  /\ (forall k, o <> Ok k)
  /\ o <> Raise (KeyError "alice").
Proof.
  cbv zeta. repeat split; [intros k H | intros H]; discriminate H.
Qed.

(** ** import_key *)

Section ImportKey.
Context {Key W : Type} (str : exn -> string) (gpg : Engine Key W).

Lemma import_key_engine_error (pubkey : string) (w w1 : W) (e : exn) :
  op_import gpg (Data_new (Some pubkey)) w = (Raise e, w1) ->
  import_key str gpg pubkey w = (Raise e, w1).
Proof.
  intros H. unfold import_key, bind. now rewrite H.
Qed.

Lemma import_key_checked (pubkey : string) (w w1 : W) (r : ImportResult) :
  op_import gpg (Data_new (Some pubkey)) w = (Ok r, w1) ->
  import_key str gpg pubkey w =
  match getattr r "considered" (considered r) with
  | Raise e => (Raise e, w1)
  | Ok c =>
      if negb (c =? 1)%Z then
        (Raise (ValueError "Exactly one public key must be provided" (Some r)),
         w1)
      else
        match getattr r "imported" (imported r) with
        | Raise e => (Raise e, w1)
        | Ok i =>
            if negb (i =? 1)%Z then
              (Raise (ValueError "Given public key must be valid" (Some r)), w1)
            else
              (key <- _get_imported_key str gpg r ;; ret (key, r)) w1
        end
  end.
Proof.
  intros H. unfold import_key. unfold bind at 1. rewrite H.
  unfold bind at 1. unfold lift_outcome at 1.
  destruct (getattr r "considered" (considered r)) as [c|e]; [|reflexivity].
  destruct (c =? 1)%Z; simpl; [|reflexivity].
  unfold bind at 1. unfold lift_outcome at 1.
  destruct (getattr r "imported" (imported r)) as [i|e]; [|reflexivity].
  destruct (i =? 1)%Z; reflexivity.
Qed.

Lemma import_key_counts_ok (pubkey : string) (w w1 : W) (r : ImportResult) :
  op_import gpg (Data_new (Some pubkey)) w = (Ok r, w1) ->
  considered r = Some 1%Z ->
  imported r = Some 1%Z ->
  import_key str gpg pubkey w =
  (key <- _get_imported_key str gpg r ;; ret (key, r)) w1.
Proof.
  intros H Hc Hi. rewrite (import_key_checked _ _ _ _ H).
  unfold getattr. now rewrite Hc, Hi.
Qed.

(** A pair comes back only when both counts are there and are 1. *)
Lemma import_key_ok_counts (pubkey : string) (w w1 w' : W) (r r' : ImportResult)
    (k : Key) :
  op_import gpg (Data_new (Some pubkey)) w = (Ok r, w1) ->
  import_key str gpg pubkey w = (Ok (k, r'), w') ->
  considered r = Some 1%Z /\ imported r = Some 1%Z /\ r' = r
  /\ _get_imported_key str gpg r w1 = (Ok k, w').
Proof.
  intros H. rewrite (import_key_checked _ _ _ _ H). unfold getattr.
  destruct (considered r) as [c|]; [|discriminate].
  destruct (c =? 1)%Z eqn:Hc; simpl; [|discriminate].
  destruct (imported r) as [i|]; [|discriminate].
  destruct (i =? 1)%Z eqn:Hi; simpl; [|discriminate].
  apply Z.eqb_eq in Hc. apply Z.eqb_eq in Hi. subst c i.
  unfold bind, ret.
  destruct (_get_imported_key str gpg r w1) as [[k0|e] w2];
    intros Hok; inversion Hok; subst; repeat split.
Qed.

(** C2, as amended: on the result [r] of the engine's import, [import_key]
    raises [ValueError] ("Exactly one public key must be provided", [r]) when
    the count [considered] is not 1, whatever [imported] is; it raises
    [ValueError] ("Given public key must be valid", [r]) when [considered] is
    1 and [imported] is not; only with both counts 1 does it go on to resolve
    the key, and a pair it returns holds that same [r].  The payload has
    been through the engine's import by then: in both failing cases the world
    is the one the import left, whatever it added to the keyring, and nothing
    is undone. *)
Theorem import_key_count_checks (pubkey : string) (w w1 : W) (r : ImportResult) :
  op_import gpg (Data_new (Some pubkey)) w = (Ok r, w1) ->
  (forall c, considered r = Some c -> c <> 1%Z ->
   import_key str gpg pubkey w =
   (Raise (ValueError "Exactly one public key must be provided" (Some r)), w1))
  /\ (forall i, considered r = Some 1%Z -> imported r = Some i -> i <> 1%Z ->
      import_key str gpg pubkey w =
      (Raise (ValueError "Given public key must be valid" (Some r)), w1))
  /\ (considered r = Some 1%Z -> imported r = Some 1%Z ->
      import_key str gpg pubkey w =
      (key <- _get_imported_key str gpg r ;; ret (key, r)) w1)
  /\ (forall k r' w', import_key str gpg pubkey w = (Ok (k, r'), w') ->
      considered r = Some 1%Z /\ imported r = Some 1%Z /\ r' = r)
  /\ (forall e w', import_key str gpg pubkey w = (Raise e, w') ->
      (forall c, considered r = Some c -> c <> 1%Z -> w' = w1)
      /\ (forall i, considered r = Some 1%Z -> imported r = Some i ->
          i <> 1%Z -> w' = w1)).
Proof.
  intros H.
  assert (H1 : forall c, considered r = Some c -> c <> 1%Z ->
               import_key str gpg pubkey w =
               (Raise (ValueError "Exactly one public key must be provided"
                         (Some r)), w1)).
  { intros c Hc Hn. rewrite (import_key_checked _ _ _ _ H). unfold getattr.
    rewrite Hc. apply Z.eqb_neq in Hn. now rewrite Hn. }
  assert (H2 : forall i, considered r = Some 1%Z -> imported r = Some i ->
               i <> 1%Z ->
               import_key str gpg pubkey w =
               (Raise (ValueError "Given public key must be valid" (Some r)),
                w1)).
  { intros i Hc Hi Hn. rewrite (import_key_checked _ _ _ _ H). unfold getattr.
    rewrite Hc, Hi. apply Z.eqb_neq in Hn. now rewrite Hn. }
  split; [exact H1|]. split; [exact H2|].
  split; [now apply import_key_counts_ok|].
  split.
  - intros k r' w' Hok.
    destruct (import_key_ok_counts _ _ _ _ _ _ _ H Hok) as (Hc & Hi & Hr & _).
    auto.
  - intros e w' Hr. split.
    + intros c Hc Hn. rewrite (H1 c Hc Hn) in Hr. now inversion Hr.
    + intros i Hc Hi Hn. rewrite (H2 i Hc Hi Hn) in Hr. now inversion Hr.
Qed.

End ImportKey.

(** C2 at work on the small engine: an empty payload, a key already in the
    keyring, and a payload the engine reports as two keys of which one was
    imported. *)
Lemma import_key_count_checks_witness :
  import_key Toy.str Toy.gpg "" ["ABCD"] =
  (Raise (ValueError "Exactly one public key must be provided"
            (Some (Toy.result 0 0 []))),
   ["ABCD"])
  /\ import_key Toy.str Toy.gpg "ABCD" ["ABCD"] =
     (Raise (ValueError "Given public key must be valid"
               (Some (Toy.result 1 0 [ {| fpr := Some "ABCD" |} ]))),
      ["ABCD"])
  /\ import_key Toy.str
       (Toy.with_op_import
          (Ok (Toy.result 2 1 [ {| fpr := Some "ABCD" |} ]))
          (Entry "ABCD" Exhausted)) "two keys" [] =
     (Raise (ValueError "Exactly one public key must be provided"
               (Some (Toy.result 2 1 [ {| fpr := Some "ABCD" |} ]))),
      []).
Proof.
  split; [|split].
  - destruct (import_key_count_checks Toy.str Toy.gpg "" ["ABCD"] ["ABCD"] _ eq_refl)
      as [H _].
    apply (H 0%Z); [reflexivity | discriminate].
  - destruct (import_key_count_checks Toy.str Toy.gpg "ABCD" ["ABCD"] ["ABCD"] _ eq_refl)
      as [_ [H _]].
    apply (H 0%Z); [reflexivity | reflexivity | discriminate].
  - destruct (import_key_count_checks Toy.str
                (Toy.with_op_import
                   (Ok (Toy.result 2 1 [ {| fpr := Some "ABCD" |} ]))
                   (Entry "ABCD" Exhausted)) "two keys" [] [] _ eq_refl)
      as [H _].
    apply (H 2%Z); [reflexivity | discriminate].
Defined.

(** C2, as stated, fails in its clause on partial imports: a payload of two
    keys, of which the engine imports one, is refused as the claim says, and
    yet that one key is in the keyring afterwards, where it was not before.
    The engine's import has run when the counts are looked at, and nothing
    takes it back. *)
Lemma import_key_count_checks_counterexample :
  let r := Toy.result 2 1 [ {| fpr := Some "K1" |} ] in
  let gpg := Toy.with_import_effect (Ok r) ["K1"] in
  import_key Toy.str gpg "two keys" ["XY"] =
  (Raise (ValueError "Exactly one public key must be provided" (Some r)),
   ["XY"; "K1"])
  /\ fst (find_key gpg "K1" ["XY"]) = Raise (KeyError "K1")
  /\ fst (find_key gpg "K1" (snd (import_key Toy.str gpg "two keys" ["XY"]))) =
     Ok "K1".
Proof.
  cbv zeta. repeat split.
Qed.

Section Resolution.
Context {Key W : Type} (str : exn -> string) (gpg : Engine Key W).

(** Reading the fingerprint fails only with the two errors the guarded block
    names. *)
Lemma first_fpr_error (r : ImportResult) (e : exn) :
  first_fpr r = Raise e ->
  (exists m, e = IndexError m) \/ (exists m, e = AttributeError m).
Proof.
  unfold first_fpr, getattr.
  destruct (imports r) as [[|st l]|]; [| destruct (fpr st) |];
    intros H; inversion H; eauto.
Qed.

Lemma _get_imported_key_no_fpr (r : ImportResult) (e : exn) (w : W) :
  first_fpr r = Raise e ->
  _get_imported_key str gpg r w = (Raise (ValueError (str e) (Some r)), w).
Proof.
  intros H. unfold _get_imported_key, try_except, bind, lift_outcome.
  rewrite H.
  destruct (first_fpr_error _ _ H) as [[m ->]|[m ->]]; reflexivity.
Qed.

Lemma _get_imported_key_lookup (r : ImportResult) (f : string) (w : W) :
  first_fpr r = Ok f ->
  _get_imported_key str gpg r w =
  match find_key gpg f w with
  | (Ok k, w') => (Ok k, w')
  | (Raise e, w') =>
      (match e with
       | KeyError _ | IndexError _ | AttributeError _ =>
           Raise (ValueError (str e) (Some r))
       | _ => Raise e
       end, w')
  end.
Proof.
  intros H. unfold _get_imported_key, try_except, bind, lift_outcome.
  rewrite H.
  destruct (find_key gpg f w) as [[k|e] w']; [reflexivity|].
  destruct e; reflexivity.
Qed.

(** C6, as amended: once both counts are 1, [import_key] reads the
    fingerprint of the first import and looks it up with [find_key].  When
    the fingerprint cannot be read, or the listing ends without an entry, it
    raises [ValueError] carrying the text of the inner error and the import
    result; when the listing yields an entry it returns that key with the
    import result.  When the listing itself fails, the engine's error
    reaches the caller as it is, unless its class is one the guarded block
    names ([KeyError], [IndexError], [AttributeError]; a [StopIteration] has
    become a [KeyError] in [find_key]). *)
Theorem import_key_resolution (pubkey : string) (w w1 : W) (r : ImportResult) :
  op_import gpg (Data_new (Some pubkey)) w = (Ok r, w1) ->
  considered r = Some 1%Z ->
  imported r = Some 1%Z ->
  (forall e, first_fpr r = Raise e ->
     import_key str gpg pubkey w = (Raise (ValueError (str e) (Some r)), w1))
  /\ (forall f w2, first_fpr r = Ok f ->
        keylist gpg f w1 = (Exhausted, w2) ->
        import_key str gpg pubkey w =
        (Raise (ValueError (str (KeyError f)) (Some r)), w2))
  /\ (forall f k rest w2, first_fpr r = Ok f ->
        keylist gpg f w1 = (Entry k rest, w2) ->
        import_key str gpg pubkey w = (Ok (k, r), w2))
  /\ (forall f e w2, first_fpr r = Ok f ->
        keylist gpg f w1 = (Broken e, w2) ->
        import_key str gpg pubkey w =
        (match e with
         | StopIteration => Raise (ValueError (str (KeyError f)) (Some r))
         | KeyError _ | IndexError _ | AttributeError _ =>
             Raise (ValueError (str e) (Some r))
         | _ => Raise e
         end, w2)).
Proof.
  intros H Hc Hi.
  rewrite (import_key_counts_ok _ _ _ _ _ _ H Hc Hi).
  unfold bind, ret.
  repeat split.
  - intros e He. now rewrite (_get_imported_key_no_fpr _ _ _ He).
  - intros f w2 Hf Hl. rewrite (_get_imported_key_lookup _ _ _ Hf).
    now rewrite (find_key_exhausted _ _ _ _ Hl).
  - intros f k rest w2 Hf Hl. rewrite (_get_imported_key_lookup _ _ _ Hf).
    now rewrite (find_key_entry _ _ _ _ _ _ Hl).
  - intros f e w2 Hf Hl. rewrite (_get_imported_key_lookup _ _ _ Hf).
    rewrite (find_key_broken _ _ _ _ _ Hl). now destruct e.
Qed.

End Resolution.

(** C6 at work on the small engine: a fresh key is imported and found again;
    an import result without entries gives the [ValueError] with the import
    result. *)
Lemma import_key_resolution_witness :
  import_key Toy.str Toy.gpg "ABCD" ["XY"] =
  (Ok ("ABCD", (Toy.result 1 1 [ {| fpr := Some "ABCD" |} ])),
   ["XY"; "ABCD"])
  /\ import_key Toy.str
       (Toy.with_op_import
          (Ok (Toy.result 1 1 []))
          Exhausted) "ABCD" [] =
     (Raise (ValueError "list index out of range"
               (Some (Toy.result 1 1 []))),
      []).
Proof.
  split.
  - destruct (import_key_resolution Toy.str Toy.gpg "ABCD" ["XY"] ["XY"; "ABCD"] _
                eq_refl eq_refl eq_refl) as (_ & _ & H & _).
    apply (H "ABCD" "ABCD" Exhausted); reflexivity.
  - destruct (import_key_resolution Toy.str
                (Toy.with_op_import
                   (Ok (Toy.result 1 1 []))
                   Exhausted) "ABCD" [] [] _ eq_refl eq_refl eq_refl)
      as (H & _).
    apply (H (IndexError "list index out of range")). reflexivity.
Defined.

(** C6, as stated, fails: both counts are 1 and the lookup fails, with an
    error of the engine's listing; [import_key] then raises that error, not
    a [ValueError] with the import result, and returns nothing. *)
Lemma import_key_resolution_counterexample :
  let r := (Toy.result 1 1 [ {| fpr := Some "ABCD" |} ]) in
  let gpg := Toy.with_op_import (Ok r) (Broken (GPGMEError 1 "General error")) in
  let o := fst (import_key Toy.str gpg "key" []) in
  fst (find_key gpg "ABCD" []) = Raise (GPGMEError 1 "General error")
  /\ o = Raise (GPGMEError 1 "General error")
  /\ (forall msg detail, o <> Raise (ValueError msg detail))
  /\ (forall k, o <> Ok (k, r)).
Proof.
  cbv zeta. repeat split; intros; discriminate.
Qed.

(** ** export_key *)

Section ExportKey.
Context {Key W : Type} (gpg : Engine Key W).

(** C7: [export_key] returns the whole content of the buffer the engine's
    export filled, read from offset 0 wherever the engine left the offset,
    also when that content is empty; and when [export_key] raises, the error
    is the one the engine's export raised: there is no check of the output
    and no error of its own. *)
Theorem export_key_as_is (pattern : string) (w : W) :
  (forall d w', op_export gpg pattern 0%Z (Data_new None) w = (Ok d, w') ->
     export_key gpg pattern w = (Ok (content d), w'))
  /\ (forall d w', op_export gpg pattern 0%Z (Data_new None) w = (Ok d, w') ->
        content d = "" -> export_key gpg pattern w = (Ok "", w'))
  /\ (forall e w', export_key gpg pattern w = (Raise e, w') ->
        op_export gpg pattern 0%Z (Data_new None) w = (Raise e, w')).
Proof.
  unfold export_key, bind, ret. repeat split.
  - intros d w' H. rewrite H. now rewrite _read_data_content.
  - intros d w' H Hd. rewrite H. now rewrite _read_data_content, Hd.
  - intros e w'.
    destruct (op_export gpg pattern 0%Z (Data_new None) w) as [[d|e'] w1];
      intros H; inversion H; reflexivity.
Qed.

End ExportKey.

(** C7 at work on the small engine: the keys matching a pattern, and the
    empty string for a pattern that matches none. *)
Lemma export_key_as_is_witness :
  export_key Toy.gpg "AB" ["XY"; "ABCD"; "ABEF"] =
  (Ok "ABCD;ABEF", ["XY"; "ABCD"; "ABEF"])
  /\ export_key Toy.gpg "Q" ["XY"; "ABCD"] = (Ok "", ["XY"; "ABCD"]).
Proof.
  split.
  - destruct (export_key_as_is Toy.gpg "AB" ["XY"; "ABCD"; "ABEF"]) as (H & _).
    apply (H {| source := Memory; content := "ABCD;ABEF"; pos := 9 |}).
    reflexivity.
  - destruct (export_key_as_is Toy.gpg "Q" ["XY"; "ABCD"]) as (_ & H & _).
    apply (H {| source := Memory; content := ""; pos := 0 |}); reflexivity.
Defined.

(** ** encrypt_text and encrypt_file *)

Section Encrypt.
Context {Key W : Type} (gpg : Engine Key W).

(** The text variant is one call of the engine's [encrypt] on fresh buffers,
    followed by reading the sink back. *)
Lemma encrypt_text_engine (data : string) (r : value Key) (t : bool) (w : W) :
  encrypt_text gpg data r t w =
  match encrypt gpg (Data_new (Some data)) (normalize_recipients r)
          (Data_new None) t w with
  | (Ok d, w') => (Ok (content d), w')
  | (Raise e, w') => (Raise e, w')
  end.
Proof.
  unfold encrypt_text, _encrypt, bind, ret.
  destruct (encrypt gpg _ _ _ t w) as [[d|e] w']; [|reflexivity].
  now rewrite _read_data_content.
Qed.

Lemma encrypt_file_engine (fi fo : File) (r : value Key) (t : bool) (w : W) :
  encrypt_file gpg fi fo r t w =
  match encrypt gpg (new_from_fd (Data_new None) fi) (normalize_recipients r)
          (new_from_fd (Data_new None) fo) t w with
  | (Ok _, w') => (Ok tt, w')
  | (Raise e, w') => (Raise e, w')
  end.
Proof.
  unfold encrypt_file, _encrypt, bind, ret.
  now destruct (encrypt gpg _ _ _ t w) as [[d|e] w'].
Qed.

End Encrypt.

Section EncryptCalls.
Context {Key W : Type} (gpg : Engine Key W).

(** The calls a logging engine has seen after either variant: the log it
    started with and one [encrypt]. *)
Lemma encrypt_text_log (data : string) (r : value Key) (t : bool) (w : W)
    (log : list (call Key)) :
  snd (snd (encrypt_text (traced gpg) data r t (w, log))) =
  (log ++ [Call_encrypt (Data_new (Some data)) (normalize_recipients r)
             (Data_new None) t])%list.
Proof.
  rewrite encrypt_text_engine. simpl. unfold logged. simpl.
  now destruct (encrypt gpg _ _ _ t w) as [[d|e] w'].
Qed.

Lemma encrypt_file_log (fi fo : File) (r : value Key) (t : bool) (w : W)
    (log : list (call Key)) :
  snd (snd (encrypt_file (traced gpg) fi fo r t (w, log))) =
  (log ++ [Call_encrypt (new_from_fd (Data_new None) fi) (normalize_recipients r)
             (new_from_fd (Data_new None) fo) t])%list.
Proof.
  rewrite encrypt_file_engine. simpl. unfold logged. simpl.
  now destruct (encrypt gpg _ _ _ t w) as [[d|e] w'].
Qed.

End EncryptCalls.

Section Recipients.
Context {Key W : Type} (gpg : Engine Key W).

(** C5: [None] becomes the empty list, a single key a list of that key, and
    a list or tuple of keys goes through as it is, with all its keys; the
    engine's [encrypt] is then called once, with that sequence and the
    [always_trust] flag, by [encrypt_text] and by [encrypt_file]. *)
Theorem encrypt_normalizes_recipients (data : string) (fi fo : File)
    (always_trust : bool) (w : W) (log : list (call Key)) :
  normalize_recipients (VNone : value Key) = VList []
  /\ (forall k : Key, normalize_recipients (VKey k) = VList [VKey k])
  /\ (forall ks : list (value Key), normalize_recipients (VList ks) = VList ks)
  /\ (forall ks : list (value Key), normalize_recipients (VTuple ks) = VTuple ks)
  /\ (forall r : value Key,
        snd (snd (encrypt_text (traced gpg) data r always_trust (w, log))) =
        (log ++ [Call_encrypt (Data_new (Some data)) (normalize_recipients r)
                   (Data_new None) always_trust])%list)
  /\ (forall r : value Key,
        snd (snd (encrypt_file (traced gpg) fi fo r always_trust (w, log))) =
        (log ++ [Call_encrypt (new_from_fd (Data_new None) fi)
                   (normalize_recipients r)
                   (new_from_fd (Data_new None) fo) always_trust])%list).
Proof.
  repeat split; try reflexivity.
  - intros r. apply encrypt_text_log.
  - intros r. apply encrypt_file_log.
Qed.

(** C9: with the empty list for [recipients] both variants do exactly what
    they do with [None], on every engine and in every world: the engine's
    [encrypt] is called once with the empty list, and the outcome of
    [encrypt_text] is the outcome of that call, so the facade itself raises
    nothing for an empty list. *)
Theorem encrypt_empty_list_as_none (data : string) (fi fo : File)
    (always_trust : bool) (w : W) (log : list (call Key)) :
  encrypt_text gpg data (VList []) always_trust w =
  encrypt_text gpg data VNone always_trust w
  /\ encrypt_file gpg fi fo (VList []) always_trust w =
     encrypt_file gpg fi fo VNone always_trust w
  /\ encrypt_text (traced gpg) data (VList []) always_trust (w, log) =
     encrypt_text (traced gpg) data VNone always_trust (w, log)
  /\ encrypt_file (traced gpg) fi fo (VList []) always_trust (w, log) =
     encrypt_file (traced gpg) fi fo VNone always_trust (w, log)
  /\ snd (snd (encrypt_text (traced gpg) data (VList []) always_trust (w, log))) =
     (log ++ [Call_encrypt (Data_new (Some data)) (VList []) (Data_new None)
                always_trust])%list
  /\ snd (snd (encrypt_file (traced gpg) fi fo (VList []) always_trust (w, log))) =
     (log ++ [Call_encrypt (new_from_fd (Data_new None) fi) (VList [])
                (new_from_fd (Data_new None) fo) always_trust])%list
  /\ encrypt_text gpg data (VList []) always_trust w =
     match encrypt gpg (Data_new (Some data)) (VList []) (Data_new None)
             always_trust w with
     | (Ok d, w') => (Ok (content d), w')
     | (Raise e, w') => (Raise e, w')
     end.
Proof.
  repeat split; try reflexivity.
  - apply encrypt_text_log.
  - apply encrypt_file_log.
  - apply encrypt_text_engine.
Qed.

(** C10: a value that is neither [None] nor a list nor a tuple, a set or a
    generator of keys for one, is put whole into a list of one element, and
    that list is what the engine's [encrypt] receives from both variants;
    lists and tuples alone go through with their elements. *)
Theorem encrypt_wraps_other_values (r : value Key) :
  r <> VNone ->
  isinstance_list_tuple r = false ->
  normalize_recipients r = VList [r]
  /\ (forall data t w log,
        snd (snd (encrypt_text (traced gpg) data r t (w, log))) =
        (log ++ [Call_encrypt (Data_new (Some data)) (VList [r])
                   (Data_new None) t])%list)
  /\ (forall fi fo t w log,
        snd (snd (encrypt_file (traced gpg) fi fo r t (w, log))) =
        (log ++ [Call_encrypt (new_from_fd (Data_new None) fi) (VList [r])
                   (new_from_fd (Data_new None) fo) t])%list)
  /\ (forall v : value Key,
        isinstance_list_tuple v = true -> normalize_recipients v = v).
Proof.
  intros Hnone Hseq.
  assert (Hn : normalize_recipients r = VList [r]).
  { unfold normalize_recipients. rewrite Hseq. simpl.
    destruct r; try reflexivity. now elim Hnone. }
  repeat split.
  - exact Hn.
  - intros. rewrite encrypt_text_log. now rewrite Hn.
  - intros. rewrite encrypt_file_log. now rewrite Hn.
  - intros v Hv. destruct v; try discriminate; reflexivity.
Qed.

End Recipients.

(** C10 at work on the small engine: a set of two keys reaches the engine as
    one recipient, which this engine refuses. *)
Lemma encrypt_wraps_other_values_witness :
  normalize_recipients (VSet [VKey "ABCD"; VKey "ABEF"] : value Toy.Key) =
  VList [VSet [VKey "ABCD"; VKey "ABEF"]]
  /\ snd (snd (encrypt_text (traced Toy.gpg) "hello"
                 (VSet [VKey "ABCD"; VKey "ABEF"]) false (["ABCD"; "ABEF"], []))) =
     [Call_encrypt (Data_new (Some "hello"))
        (VList [VSet [VKey "ABCD"; VKey "ABEF"]]) (Data_new None) false].
Proof.
  destruct (encrypt_wraps_other_values Toy.gpg (VSet [VKey "ABCD"; VKey "ABEF"]))
    as (H1 & H2 & _).
  - discriminate.
  - reflexivity.
  - split; [exact H1 | apply (H2 "hello" false ["ABCD"; "ABEF"] [])].
Defined.

(** ** decrypt_text and decrypt_file *)

Section Decrypt.
Context {Key W : Type} (gpg : Engine Key W).

(** What [_decrypt] makes of each outcome of the engine's [decrypt]. *)
Lemma _decrypt_engine (c : input) (sink : Data) (w : W) :
  _decrypt gpg c sink w =
  match decrypt gpg c sink w with
  | (Ok d, w') => (Ok d, w')
  | (Raise (GPGMEError code m), w') =>
      if (code =? NO_DATA gpg)%Z
      then (Raise (ValueError "No encrypted data" None), w')
      else (Raise (GPGMEError code m), w')
  | (Raise e, w') => (Raise e, w')
  end.
Proof.
  unfold _decrypt, try_except.
  destruct (decrypt gpg c sink w) as [[d|e] w']; [reflexivity|].
  destruct e; try reflexivity.
  now destruct (code =? NO_DATA gpg)%Z.
Qed.

Lemma _decrypt_no_data (c : input) (sink : Data) (w w' : W) (m : string) :
  decrypt gpg c sink w = (Raise (GPGMEError (NO_DATA gpg) m), w') ->
  _decrypt gpg c sink w = (Raise (ValueError "No encrypted data" None), w').
Proof.
  intros H. rewrite _decrypt_engine, H. now rewrite Z.eqb_refl.
Qed.

Lemma _decrypt_other (c : input) (sink : Data) (w w' : W) (e : exn) :
  decrypt gpg c sink w = (Raise e, w') ->
  (forall m, e <> GPGMEError (NO_DATA gpg) m) ->
  _decrypt gpg c sink w = (Raise e, w').
Proof.
  intros H Hne. rewrite _decrypt_engine, H.
  destruct e as [| | | | |code m|]; try reflexivity.
  destruct (code =? NO_DATA gpg)%Z eqn:Hc; [|reflexivity].
  apply Z.eqb_eq in Hc. subst code. now elim (Hne m).
Qed.

Lemma _decrypt_ok (c : input) (sink d : Data) (w w' : W) :
  decrypt gpg c sink w = (Ok d, w') ->
  _decrypt gpg c sink w = (Ok d, w').
Proof.
  intros H. now rewrite _decrypt_engine, H.
Qed.

(** C3: when the engine's [decrypt] raises [GPGMEError] with the code
    [NO_DATA], [decrypt_text] and [decrypt_file] raise [ValueError] with the
    message "No encrypted data"; when it raises anything else, an engine
    error with another code or an exception of another class, that same
    exception, code and message included, is what the caller gets. *)
Theorem decrypt_failures (data : string) (fi fo : File) (w w' : W) (e : exn) :
  (decrypt gpg (InStr data) (Data_new None) w = (Raise e, w') ->
   ((exists m, e = GPGMEError (NO_DATA gpg) m) ->
    decrypt_text gpg data w = (Raise (ValueError "No encrypted data" None), w'))
   /\ ((forall m, e <> GPGMEError (NO_DATA gpg) m) ->
       decrypt_text gpg data w = (Raise e, w')))
  /\ (decrypt gpg (InData (new_from_fd (Data_new None) fi))
        (new_from_fd (Data_new None) fo) w = (Raise e, w') ->
      ((exists m, e = GPGMEError (NO_DATA gpg) m) ->
       decrypt_file gpg fi fo w = (Raise (ValueError "No encrypted data" None), w'))
      /\ ((forall m, e <> GPGMEError (NO_DATA gpg) m) ->
          decrypt_file gpg fi fo w = (Raise e, w'))).
Proof.
  split; intros H; split.
  - intros [m ->]. unfold decrypt_text, bind.
    now rewrite (_decrypt_no_data _ _ _ _ _ H).
  - intros Hne. unfold decrypt_text, bind.
    now rewrite (_decrypt_other _ _ _ _ _ H Hne).
  - intros [m ->]. unfold decrypt_file, bind.
    now rewrite (_decrypt_no_data _ _ _ _ _ H).
  - intros Hne. unfold decrypt_file, bind.
    now rewrite (_decrypt_other _ _ _ _ _ H Hne).
Qed.

Lemma decrypt_text_ok (data : string) (d : Data) (w w' : W) :
  decrypt gpg (InStr data) (Data_new None) w = (Ok d, w') ->
  decrypt_text gpg data w = (Ok (content d), w').
Proof.
  intros H. unfold decrypt_text, bind, ret.
  rewrite (_decrypt_ok _ _ _ _ _ H). now rewrite _read_data_content.
Qed.

End Decrypt.

(** C3 at work on the small engine: plain text is no encrypted data; a
    refused passphrase and an error of another class come through as they
    are. *)
Lemma decrypt_failures_witness :
  decrypt_text Toy.gpg "hello world" [] =
  (Raise (ValueError "No encrypted data" None), [])
  /\ decrypt_text (Toy.with_decrypt (Raise (GPGMEError 11 "Bad passphrase")))
       "PGP:hello" [] = (Raise (GPGMEError 11 "Bad passphrase"), [])
  /\ decrypt_file (Toy.with_decrypt (Raise (OtherError "IOError" "closed file")))
       {| fileno := 3; fcontent := "PGP:hello"; fpos := 0 |}
       {| fileno := 4; fcontent := ""; fpos := 0 |} [] =
     (Raise (OtherError "IOError" "closed file"), []).
Proof.
  split; [|split].
  - destruct (decrypt_failures Toy.gpg "hello world"
                {| fileno := 3; fcontent := ""; fpos := 0 |}
                {| fileno := 4; fcontent := ""; fpos := 0 |}
                [] [] (GPGMEError 58 "No data")) as [H _].
    destruct (H eq_refl) as [H1 _]. apply H1. now exists "No data".
  - destruct (decrypt_failures
                (Toy.with_decrypt (Raise (GPGMEError 11 "Bad passphrase")))
                "PGP:hello"
                {| fileno := 3; fcontent := ""; fpos := 0 |}
                {| fileno := 4; fcontent := ""; fpos := 0 |}
                [] [] (GPGMEError 11 "Bad passphrase")) as [H _].
    destruct (H eq_refl) as [_ H2]. apply H2. intros m Hm. discriminate Hm.
  - destruct (decrypt_failures
                (Toy.with_decrypt (Raise (OtherError "IOError" "closed file")))
                "PGP:hello"
                {| fileno := 3; fcontent := "PGP:hello"; fpos := 0 |}
                {| fileno := 4; fcontent := ""; fpos := 0 |}
                [] [] (OtherError "IOError" "closed file")) as [_ H].
    destruct (H eq_refl) as [_ H2]. apply H2. intros m Hm. discriminate Hm.
Defined.

(** ** Round trip *)

Lemma keys_of_map {Key} (ks : list Key) : keys_of (map VKey ks) = Some ks.
Proof.
  induction ks as [|k ks IH]; simpl; [reflexivity | now rewrite IH].
Qed.

Lemma keys_of_some {Key} (items : list (value Key)) (ks : list Key) :
  keys_of items = Some ks -> items = map VKey ks.
Proof.
  revert ks. induction items as [|v items IH]; intros ks; simpl.
  - intros H; inversion H; reflexivity.
  - destruct v; try discriminate.
    destruct (keys_of items) as [ks'|]; [|discriminate].
    intros H; inversion H; subst. simpl. now rewrite (IH ks').
Qed.

(** For the values the docstring allows, what the engine is given is the
    sequence of exactly the keys the caller named. *)
Lemma normalize_recipients_keys {Key} (R : value Key) (ks : list Key) :
  recipient_keys R = Some ks ->
  normalize_recipients R = VList (map VKey ks)
  \/ normalize_recipients R = VTuple (map VKey ks).
Proof.
  destruct R; simpl; try discriminate.
  - intros H; inversion H; now left.
  - intros H; inversion H; now left.
  - intros H. left. now rewrite (keys_of_some _ _ H).
  - intros H. right. now rewrite (keys_of_some _ _ H).
Qed.

Section RoundTrip.
Context {Key W Key' W' : Type}.
(* the encrypting context, and the decrypting one *)
Variable gpg : Engine Key W.
Variable gpg' : Engine Key' W'.
(* the decrypting context, in this world, can open a message for these keys:
   it has the passphrase when there are none, a secret key of one of them
   otherwise *)
Variable unlocks : W' -> list Key -> Prop.

(* What an OpenPGP engine is for: a message encrypted to a sequence of keys
   is decrypted, to the same plaintext, by a context that can open it. *)
Hypothesis engine_round_trip :
  forall (P : string) (ks : list Key) (recipients : value Key) (t : bool)
         (w w1 : W) (d : Data) (w' : W'),
    recipients = VList (map VKey ks) \/ recipients = VTuple (map VKey ks) ->
    encrypt gpg (Data_new (Some P)) recipients (Data_new None) t w = (Ok d, w1) ->
    unlocks w' ks ->
    exists p w2,
      decrypt gpg' (InStr (content d)) (Data_new None) w' = (Ok p, w2)
      /\ content p = P.

(** C1: on engines that round-trip, let [R] name the keys [ks] ([None] names
    none, a single key itself, a list or a tuple of keys its elements), and
    let the decrypting context be able to open a message for [ks] (the
    passphrase for none, a secret key of one of them otherwise).  Then
    whatever [encrypt_text P R] returns, [decrypt_text] in that context turns
    back into [P]. *)
Theorem encrypt_decrypt_roundtrip (P : string) (R : value Key)
    (ks : list Key) (always_trust : bool) (w w1 : W) (w' : W') (c : string) :
  recipient_keys R = Some ks ->
  unlocks w' ks ->
  encrypt_text gpg P R always_trust w = (Ok c, w1) ->
  exists w2, decrypt_text gpg' c w' = (Ok P, w2).
Proof.
  intros HR Hopen. rewrite encrypt_text_engine.
  destruct (encrypt gpg _ _ _ always_trust w) as [[d|e] w1'] eqn:Henc;
    intros H; inversion H; subst; clear H.
  destruct (engine_round_trip P ks (normalize_recipients R) always_trust
              w w1 d w' (normalize_recipients_keys R ks HR) Henc Hopen)
    as (p & w2 & Hdec & Hp).
  exists w2. rewrite (decrypt_text_ok _ _ _ _ _ Hdec). now rewrite Hp.
Qed.

End RoundTrip.

(** The small engine with keys round-trips. *)
Lemma split_header_built (ks : list Keyed.Key) (body : string) :
  forallb (fun k => negb (Ascii.eqb k Keyed.colon)) ks = true ->
  Keyed.split_header (string_of_list_ascii ks ++ String Keyed.colon body) =
  Some (ks, body).
Proof.
  induction ks as [|k ks IH]; simpl.
  - intros _. reflexivity.
  - intros H. apply andb_prop in H. destruct H as [Hk Hks].
    apply Bool.negb_true_iff in Hk. rewrite Hk. now rewrite (IH Hks).
Qed.

Lemma keyed_round_trip (P : string) (ks : list Keyed.Key)
    (recipients : value Keyed.Key) (t : bool) (w w1 : Keyed.World) (d : Data)
    (w' : Keyed.World) :
  recipients = VList (map VKey ks) \/ recipients = VTuple (map VKey ks) ->
  encrypt Keyed.gpg (Data_new (Some P)) recipients (Data_new None) t w =
  (Ok d, w1) ->
  Keyed.unlocks w' ks = true ->
  exists p w2,
    decrypt Keyed.gpg (InStr (content d)) (Data_new None) w' = (Ok p, w2)
    /\ content p = P.
Proof.
  intros Hseq Henc Hopen.
  assert (Hd : forallb (fun k => negb (Ascii.eqb k Keyed.colon)) ks = true
               /\ content d = string_of_list_ascii ks ++ String Keyed.colon P).
  { destruct Hseq as [-> | ->]; simpl in Henc; rewrite keys_of_map in Henc;
      destruct (forallb (fun k => negb (Ascii.eqb k Keyed.colon)) ks);
      inversion Henc; subst; simpl;
      rewrite Nat.sub_0_r, substring_all; auto. }
  destruct Hd as [Hks Hd].
  exists (Toy.fill (Data_new None) P), w'. simpl.
  rewrite Hd, (split_header_built _ _ Hks), Hopen. auto.
Qed.

(** C1 at work on the small engine with keys: a message for one key, and a
    message for nobody, come back in a context that can open them. *)
Lemma encrypt_decrypt_roundtrip_witness :
  (exists w2,
     decrypt_text Keyed.gpg "a:attack at dawn" (false, ["b"; "a"]%char) =
     (Ok "attack at dawn", w2))
  /\ (exists w2,
        decrypt_text Keyed.gpg ":attack at dawn" (true, []) =
        (Ok "attack at dawn", w2)).
Proof.
  split.
  - apply (encrypt_decrypt_roundtrip Keyed.gpg Keyed.gpg
             (fun w ks => Keyed.unlocks w ks = true) keyed_round_trip
             "attack at dawn" (VKey "a"%char) ["a"%char] false
             (false, []) (false, []) (false, ["b"; "a"]%char)
             "a:attack at dawn"); reflexivity.
  - apply (encrypt_decrypt_roundtrip Keyed.gpg Keyed.gpg
             (fun w ks => Keyed.unlocks w ks = true) keyed_round_trip
             "attack at dawn" VNone [] true
             (false, []) (false, []) (true, [])
             ":attack at dawn"); reflexivity.
Defined.

(** A context without the key, or without the passphrase, gets an error of
    the engine instead. *)
Example keyed_wrong_context :
  decrypt_text Keyed.gpg "a:attack at dawn" (true, ["b"]%char) =
  (Raise (GPGMEError 17 "No secret key"), (true, ["b"]%char))
  /\ decrypt_text Keyed.gpg ":attack at dawn" (false, ["a"]%char) =
     (Raise (GPGMEError 17 "No secret key"), (false, ["a"]%char)).
Proof.
  split; reflexivity.
Qed.

(** ** Where failures come from *)

Section Origins.
Context {Key W : Type} (str : exn -> string) (gpg : Engine Key W).

Lemma find_key_raises (pattern : string) (w w' : W) (e : exn) :
  find_key gpg pattern w = (Raise e, w') ->
  keylist gpg pattern w = (Broken e, w')
  \/ (e = KeyError pattern
      /\ (keylist gpg pattern w = (Exhausted, w')
          \/ keylist gpg pattern w = (Broken StopIteration, w'))).
Proof.
  rewrite find_key_cases.
  destruct (keylist gpg pattern w) as [[|k rest|e0] w0].
  - intros H; inversion H; subst. right. auto.
  - discriminate.
  - destruct e0; intros H; inversion H; subst; auto.
Qed.

Lemma find_key_broken_raises (pattern : string) (w w' : W) (e : exn) :
  keylist gpg pattern w = (Broken e, w') ->
  exists e', find_key gpg pattern w = (Raise e', w').
Proof.
  intros H. rewrite (find_key_broken _ _ _ _ _ H). destruct e; eauto.
Qed.

Lemma _get_imported_key_raises (r : ImportResult) (w w' : W) (e : exn) :
  _get_imported_key str gpg r w = (Raise e, w') ->
  (exists msg, e = ValueError msg (Some r))
  \/ (exists f, first_fpr r = Ok f /\ keylist gpg f w = (Broken e, w')).
Proof.
  destruct (first_fpr r) as [f|e0] eqn:Hf.
  - rewrite (_get_imported_key_lookup _ _ _ _ _ Hf).
    destruct (find_key gpg f w) as [[k|e1] w1] eqn:Hfind; [discriminate|].
    destruct (find_key_raises _ _ _ _ Hfind) as [Hb|[-> _]].
    + destruct e1; intros H; inversion H; subst; eauto.
    + intros H; inversion H; subst; eauto.
  - rewrite (_get_imported_key_no_fpr _ _ _ _ _ Hf).
    intros H; inversion H; subst; eauto.
Qed.

Lemma import_key_raises (pubkey : string) (w w' : W) (e : exn) :
  import_key str gpg pubkey w = (Raise e, w') ->
  op_import gpg (Data_new (Some pubkey)) w = (Raise e, w')
  \/ exists r w1,
       op_import gpg (Data_new (Some pubkey)) w = (Ok r, w1)
       /\ ((w' = w1
            /\ (getattr r "considered" (considered r) = Raise e
                \/ (considered r = Some 1%Z
                    /\ getattr r "imported" (imported r) = Raise e)))
           \/ (exists msg, e = ValueError msg (Some r))
           \/ (exists f, first_fpr r = Ok f /\ keylist gpg f w1 = (Broken e, w'))).
Proof.
  destruct (op_import gpg (Data_new (Some pubkey)) w) as [[r|e0] w1] eqn:Hi.
  - rewrite (import_key_checked _ _ _ _ _ _ Hi). intros H. right. exists r, w1.
    split; [reflexivity|].
    destruct (getattr r "considered" (considered r)) as [c|e1] eqn:Hc;
      [|inversion H; subst; left; auto].
    destruct (c =? 1)%Z eqn:Hc1; simpl in H;
      [|inversion H; subst; right; left; eauto].
    apply Z.eqb_eq in Hc1. subst c.
    assert (Hc' : considered r = Some 1%Z).
    { unfold getattr in Hc. destruct (considered r); now inversion Hc. }
    destruct (getattr r "imported" (imported r)) as [i|e1] eqn:Hm;
      [|inversion H; subst; left; auto].
    destruct (i =? 1)%Z; simpl in H;
      [|inversion H; subst; right; left; eauto].
    unfold bind, ret in H.
    destruct (_get_imported_key str gpg r w1) as [[k|e1] w2] eqn:Hg;
      [discriminate|].
    inversion H; subst. right.
    exact (_get_imported_key_raises _ _ _ _ Hg).
  - rewrite (import_key_engine_error _ _ _ _ _ _ Hi).
    intros H; inversion H; subst. now left.
Qed.

Lemma encrypt_text_raises (data : string) (r : value Key) (t : bool) (w w' : W)
    (e : exn) :
  encrypt_text gpg data r t w = (Raise e, w') <->
  encrypt gpg (Data_new (Some data)) (normalize_recipients r) (Data_new None) t w
  = (Raise e, w').
Proof.
  rewrite encrypt_text_engine.
  destruct (encrypt gpg _ _ _ t w) as [[d|e0] w0]; split; intros H;
    inversion H; reflexivity.
Qed.

Lemma encrypt_file_raises (fi fo : File) (r : value Key) (t : bool) (w w' : W)
    (e : exn) :
  encrypt_file gpg fi fo r t w = (Raise e, w') <->
  encrypt gpg (new_from_fd (Data_new None) fi) (normalize_recipients r)
    (new_from_fd (Data_new None) fo) t w = (Raise e, w').
Proof.
  rewrite encrypt_file_engine.
  destruct (encrypt gpg _ _ _ t w) as [[d|e0] w0]; split; intros H;
    inversion H; reflexivity.
Qed.

Lemma _decrypt_raises (c : input) (sink : Data) (w w' : W) (e : exn) :
  _decrypt gpg c sink w = (Raise e, w') ->
  decrypt gpg c sink w = (Raise e, w')
  \/ (e = ValueError "No encrypted data" None
      /\ exists m, decrypt gpg c sink w = (Raise (GPGMEError (NO_DATA gpg) m), w')).
Proof.
  rewrite _decrypt_engine.
  destruct (decrypt gpg c sink w) as [[d|e0] w0]; [discriminate|].
  destruct e0 as [| | | | |code m|]; try (intros H; inversion H; now left).
  destruct (code =? NO_DATA gpg)%Z eqn:Hc; intros H; inversion H; subst.
  - apply Z.eqb_eq in Hc. subst code. right. eauto.
  - now left.
Qed.

Lemma _decrypt_error_raises (c : input) (sink : Data) (w w' : W) (e : exn) :
  decrypt gpg c sink w = (Raise e, w') ->
  exists e', _decrypt gpg c sink w = (Raise e', w').
Proof.
  intros H. rewrite _decrypt_engine, H.
  destruct e; eauto. destruct (code =? NO_DATA gpg)%Z; eauto.
Qed.

End Origins.

Section MoreOrigins.
Context {Key W : Type} (gpg : Engine Key W).

Lemma export_key_engine (pattern : string) (w : W) :
  export_key gpg pattern w =
  match op_export gpg pattern 0%Z (Data_new None) w with
  | (Ok d, w') => (Ok (content d), w')
  | (Raise e, w') => (Raise e, w')
  end.
Proof.
  unfold export_key, bind, ret.
  destruct (op_export gpg pattern 0%Z (Data_new None) w) as [[d|e] w'];
    [now rewrite _read_data_content | reflexivity].
Qed.

Lemma decrypt_text_as__decrypt (data : string) (w : W) :
  decrypt_text gpg data w =
  match _decrypt gpg (InStr data) (Data_new None) w with
  | (Ok d, w') => (Ok (content d), w')
  | (Raise e, w') => (Raise e, w')
  end.
Proof.
  unfold decrypt_text, bind, ret.
  destruct (_decrypt gpg (InStr data) (Data_new None) w) as [[d|e] w'];
    [now rewrite _read_data_content | reflexivity].
Qed.

Lemma decrypt_file_as__decrypt (fi fo : File) (w : W) :
  decrypt_file gpg fi fo w =
  match _decrypt gpg (InData (new_from_fd (Data_new None) fi))
          (new_from_fd (Data_new None) fo) w with
  | (Ok _, w') => (Ok tt, w')
  | (Raise e, w') => (Raise e, w')
  end.
Proof.
  unfold decrypt_file, bind, ret.
  now destruct (_decrypt gpg _ _ w) as [[d|e] w'].
Qed.

Lemma decrypt_text_raises (data : string) (w w' : W) (e : exn) :
  decrypt_text gpg data w = (Raise e, w') ->
  decrypt gpg (InStr data) (Data_new None) w = (Raise e, w')
  \/ (e = ValueError "No encrypted data" None
      /\ exists m, decrypt gpg (InStr data) (Data_new None) w =
                   (Raise (GPGMEError (NO_DATA gpg) m), w')).
Proof.
  rewrite decrypt_text_as__decrypt.
  destruct (_decrypt gpg (InStr data) (Data_new None) w) as [[d|e0] w0] eqn:H;
    intros E; inversion E; subst.
  exact (_decrypt_raises _ _ _ _ _ _ H).
Qed.

Lemma decrypt_file_raises (fi fo : File) (w w' : W) (e : exn) :
  decrypt_file gpg fi fo w = (Raise e, w') ->
  decrypt gpg (InData (new_from_fd (Data_new None) fi))
    (new_from_fd (Data_new None) fo) w = (Raise e, w')
  \/ (e = ValueError "No encrypted data" None
      /\ exists m, decrypt gpg (InData (new_from_fd (Data_new None) fi))
                     (new_from_fd (Data_new None) fo) w =
                   (Raise (GPGMEError (NO_DATA gpg) m), w')).
Proof.
  rewrite decrypt_file_as__decrypt.
  destruct (_decrypt gpg _ _ w) as [[d|e0] w0] eqn:H;
    intros E; inversion E; subst.
  exact (_decrypt_raises _ _ _ _ _ _ H).
Qed.

End MoreOrigins.

(** ** The calls each operation makes *)

Section Calls.
Context {Key W : Type} (str : exn -> string) (gpg : Engine Key W).

Lemma find_key_log (pattern : string) (w : W) (log : list (call Key)) :
  snd (snd (find_key (traced gpg) pattern (w, log))) =
  (log ++ [Call_keylist pattern])%list.
Proof.
  rewrite find_key_cases. simpl. unfold logged. simpl.
  destruct (keylist gpg pattern w) as [[|k rest|e] w']; try reflexivity.
  now destruct e.
Qed.

Lemma import_key_log (pubkey : string) (w : W) (log : list (call Key)) :
  exists rest,
    snd (snd (import_key str (traced gpg) pubkey (w, log))) =
    (log ++ Call_op_import (Data_new (Some pubkey)) :: rest)%list
    /\ (rest = [] \/ exists f, rest = [Call_keylist f]).
Proof.
  destruct (op_import gpg (Data_new (Some pubkey)) w) as [[r|e] w1] eqn:Hi.
  - assert (Ht : op_import (traced gpg) (Data_new (Some pubkey)) (w, log) =
                 (Ok r, (w1, (log ++ [Call_op_import (Data_new (Some pubkey))])%list))).
    { simpl. unfold logged. simpl. now rewrite Hi. }
    rewrite (import_key_checked _ _ _ _ _ _ Ht).
    destruct (getattr r "considered" (considered r)) as [c|e0];
      [|exists []; auto].
    destruct (c =? 1)%Z; simpl; [|exists []; auto].
    destruct (getattr r "imported" (imported r)) as [i|e0];
      [|exists []; auto].
    destruct (i =? 1)%Z; simpl; [|exists []; auto].
    unfold bind, ret.
    destruct (first_fpr r) as [f|e0] eqn:Hf.
    + rewrite (_get_imported_key_lookup _ _ _ _ _ Hf).
      pose proof (find_key_log f w1
                    (log ++ [Call_op_import (Data_new (Some pubkey))])%list) as Hl.
      destruct (find_key (traced gpg) f _) as [[k|e1] st] eqn:Hfind;
        simpl in Hl; exists [Call_keylist f]; (split; [|eauto]);
        [|destruct e1]; simpl; rewrite Hl, <- app_assoc; reflexivity.
    + rewrite (_get_imported_key_no_fpr _ _ _ _ _ Hf). simpl. exists []; auto.
  - assert (Ht : op_import (traced gpg) (Data_new (Some pubkey)) (w, log) =
                 (Raise e, (w1, (log ++ [Call_op_import (Data_new (Some pubkey))])%list))).
    { simpl. unfold logged. simpl. now rewrite Hi. }
    rewrite (import_key_engine_error _ _ _ _ _ _ Ht). exists []; auto.
Qed.

Lemma export_key_log (pattern : string) (w : W) (log : list (call Key)) :
  snd (snd (export_key (traced gpg) pattern (w, log))) =
  (log ++ [Call_op_export pattern 0%Z (Data_new None)])%list.
Proof.
  rewrite export_key_engine. simpl. unfold logged. simpl.
  now destruct (op_export gpg pattern 0%Z (Data_new None) w) as [[d|e] w'].
Qed.

Lemma _decrypt_log (c : input) (sink : Data) (w : W) (log : list (call Key)) :
  snd (snd (_decrypt (traced gpg) c sink (w, log))) =
  (log ++ [Call_decrypt c sink])%list.
Proof.
  rewrite _decrypt_engine. simpl. unfold logged. simpl.
  destruct (decrypt gpg c sink w) as [[d|e] w']; try reflexivity.
  destruct e; try reflexivity.
  now destruct (code =? NO_DATA gpg)%Z.
Qed.

Lemma decrypt_text_log (data : string) (w : W) (log : list (call Key)) :
  snd (snd (decrypt_text (traced gpg) data (w, log))) =
  (log ++ [Call_decrypt (InStr data) (Data_new None)])%list.
Proof.
  rewrite decrypt_text_as__decrypt.
  pose proof (_decrypt_log (InStr data) (Data_new None) w log) as H.
  now destruct (_decrypt (traced gpg) _ _ _) as [[d|e] st].
Qed.

Lemma decrypt_file_log (fi fo : File) (w : W) (log : list (call Key)) :
  snd (snd (decrypt_file (traced gpg) fi fo (w, log))) =
  (log ++ [Call_decrypt (InData (new_from_fd (Data_new None) fi))
             (new_from_fd (Data_new None) fo)])%list.
Proof.
  rewrite decrypt_file_as__decrypt.
  pose proof (_decrypt_log (InData (new_from_fd (Data_new None) fi))
                (new_from_fd (Data_new None) fo) w log) as H.
  now destruct (_decrypt (traced gpg) _ _ _) as [[d|e] st].
Qed.

End Calls.

(** ** Construction *)

Section Constructing.
Context {C P W : Type} (lib : Library C P W).

(** [__init__] call by call: the first call that raises ends it, with that
    exception. *)
Lemma init_cases (armor : bool) (home_dir : option string)
    (passphrase : option P) (w : W) :
  __init__ lib armor home_dir passphrase w =
  match new_context lib armor w with
  | (Raise e, w1) => (Raise e, w1)
  | (Ok c, w1) =>
      match
        match home_dir with
        | Some d => set_home_dir lib c d w1
        | None => (Ok c, w1)
        end
      with
      | (Raise e, w2) => (Raise e, w2)
      | (Ok c2, w2) =>
          match passphrase with
          | None => (Ok c2, w2)
          | Some p =>
              match set_pinentry_mode lib c2 (PINENTRY_MODE_LOOPBACK lib) w2 with
              | (Raise e, w3) => (Raise e, w3)
              | (Ok c3, w3) => set_passphrase_cb lib c3 p w3
              end
          end
      end
  end.
Proof.
  unfold __init__, bind, ret.
  destruct (new_context lib armor w) as [[c|e] w1]; [|reflexivity].
  destruct home_dir as [d|].
  - destruct (set_home_dir lib c d w1) as [[c2|e] w2]; [|reflexivity].
    now destruct passphrase.
  - now destruct passphrase.
Qed.

End Constructing.

Section ConstructingCalls.
Context {C P W : Type} (lib : Library C P W).

Lemma init_log (armor : bool) (home_dir : option string)
    (passphrase : option P) (w : W) (log : list (lib_call P)) :
  exists made left,
    snd (snd (__init__ (traced_lib lib) armor home_dir passphrase (w, log))) =
    (log ++ made)%list
    /\ (made ++ left)%list =
       init_calls armor home_dir passphrase (PINENTRY_MODE_LOOPBACK lib).
Proof.
  rewrite init_cases. unfold init_calls. simpl. unfold noted. simpl.
  destruct (new_context lib armor w) as [[c|e] w1]; simpl.
  2:{ exists [Call_Context armor]. eexists. split; reflexivity. }
  destruct home_dir as [d|]; simpl.
  - destruct (set_home_dir lib c d w1) as [[c2|e] w2]; simpl.
    2:{ exists [Call_Context armor; Call_set_home_dir d]. eexists.
        split; [now rewrite <- app_assoc | reflexivity]. }
    destruct passphrase as [p|]; simpl.
    2:{ exists [Call_Context armor; Call_set_home_dir d], [].
        split; [now rewrite <- app_assoc | reflexivity]. }
    destruct (set_pinentry_mode lib c2 _ w2) as [[c3|e] w3]; simpl.
    2:{ exists [Call_Context armor; Call_set_home_dir d;
                Call_set_pinentry_mode (PINENTRY_MODE_LOOPBACK lib)].
        eexists. split; [now rewrite <- !app_assoc | reflexivity]. }
    exists [Call_Context armor; Call_set_home_dir d;
            Call_set_pinentry_mode (PINENTRY_MODE_LOOPBACK lib);
            Call_set_passphrase_cb p], [].
    split; [|reflexivity].
    destruct (set_passphrase_cb lib c3 p w3) as [o w4]; simpl.
    now rewrite <- !app_assoc.
  - destruct passphrase as [p|]; simpl.
    2:{ exists [Call_Context armor], []. split; reflexivity. }
    destruct (set_pinentry_mode lib c _ w1) as [[c3|e] w3]; simpl.
    2:{ exists [Call_Context armor;
                Call_set_pinentry_mode (PINENTRY_MODE_LOOPBACK lib)].
        eexists. split; [now rewrite <- !app_assoc | reflexivity]. }
    exists [Call_Context armor;
            Call_set_pinentry_mode (PINENTRY_MODE_LOOPBACK lib);
            Call_set_passphrase_cb p], [].
    split; [|reflexivity].
    destruct (set_passphrase_cb lib c3 p w3) as [o w4]; simpl.
    now rewrite <- !app_assoc.
Qed.

End ConstructingCalls.

Section ListingFailures.
Context {Key W : Type} (str : exn -> string) (gpg : Engine Key W).

Lemma _get_imported_key_broken_raises (r : ImportResult) (f : string)
    (w w' : W) (e : exn) :
  first_fpr r = Ok f ->
  keylist gpg f w = (Broken e, w') ->
  exists e', _get_imported_key str gpg r w = (Raise e', w').
Proof.
  intros Hf Hl. rewrite (_get_imported_key_lookup _ _ _ _ _ Hf).
  rewrite (find_key_broken _ _ _ _ _ Hl). destruct e; eauto.
Qed.

Lemma import_key_broken_raises (pubkey : string) (r : ImportResult)
    (f : string) (w w1 w2 : W) (e : exn) :
  op_import gpg (Data_new (Some pubkey)) w = (Ok r, w1) ->
  considered r = Some 1%Z ->
  imported r = Some 1%Z ->
  first_fpr r = Ok f ->
  keylist gpg f w1 = (Broken e, w2) ->
  exists e', import_key str gpg pubkey w = (Raise e', w2).
Proof.
  intros Hi Hc Hm Hf Hl.
  rewrite (import_key_counts_ok _ _ _ _ _ _ Hi Hc Hm). unfold bind.
  destruct (_get_imported_key_broken_raises _ _ _ _ _ Hf Hl) as [e' ->].
  eauto.
Qed.

End ListingFailures.

(** ** How failures reach the caller *)

Section Policy.
Context {Key W : Type} (str : exn -> string) (gpg : Engine Key W).
Context {C P L : Type} (lib : Library C P L).

(** C8, as amended: every failure of every operation, the construction
    included, reaches the caller as an exception, and is one of these.
    - An error the engine raised, passed on as it is, with its code and
      message.
    - From [import_key], a [ValueError] that carries the import result the
      engine returned; or the [AttributeError] of reading a count that the
      result does not have, which carries its text alone.
    - From [find_key], a [KeyError] that carries the pattern, when the
      listing ended without an entry.
    - From [decrypt_text] and [decrypt_file], a [ValueError] that carries the
      message "No encrypted data" and nothing else, when the engine raised
      an error with the code [NO_DATA].
    Nothing is swallowed: when a call on the engine raises, the operation
    raises, also when it is the listing inside [import_key] that fails.
    Nothing is retried: an operation calls each method of the engine at most
    once, and [__init__] makes each of its calls at most once and stops at
    the first that raises. *)
Theorem failures_surface :
  (* where a failure comes from *)
  (forall pattern w e w',
     find_key gpg pattern w = (Raise e, w') ->
     keylist gpg pattern w = (Broken e, w')
     \/ (e = KeyError pattern
         /\ (keylist gpg pattern w = (Exhausted, w')
             \/ keylist gpg pattern w = (Broken StopIteration, w'))))
  /\ (forall pubkey w e w',
        import_key str gpg pubkey w = (Raise e, w') ->
        op_import gpg (Data_new (Some pubkey)) w = (Raise e, w')
        \/ exists r w1,
             op_import gpg (Data_new (Some pubkey)) w = (Ok r, w1)
             /\ ((w' = w1
                  /\ (getattr r "considered" (considered r) = Raise e
                      \/ (considered r = Some 1%Z
                          /\ getattr r "imported" (imported r) = Raise e)))
                 \/ (exists msg, e = ValueError msg (Some r)
                                 /\ carried e = Some (Detail_result r))
                 \/ (exists f, first_fpr r = Ok f
                               /\ keylist gpg f w1 = (Broken e, w'))))
  /\ (forall pattern w e w',
        export_key gpg pattern w = (Raise e, w') ->
        op_export gpg pattern 0%Z (Data_new None) w = (Raise e, w'))
  /\ (forall data r t w e w',
        encrypt_text gpg data r t w = (Raise e, w') ->
        encrypt gpg (Data_new (Some data)) (normalize_recipients r)
          (Data_new None) t w = (Raise e, w'))
  /\ (forall fi fo r t w e w',
        encrypt_file gpg fi fo r t w = (Raise e, w') ->
        encrypt gpg (new_from_fd (Data_new None) fi) (normalize_recipients r)
          (new_from_fd (Data_new None) fo) t w = (Raise e, w'))
  /\ (forall data w e w',
        decrypt_text gpg data w = (Raise e, w') ->
        decrypt gpg (InStr data) (Data_new None) w = (Raise e, w')
        \/ (e = ValueError "No encrypted data" None
            /\ carried e = None
            /\ exists m, decrypt gpg (InStr data) (Data_new None) w =
                         (Raise (GPGMEError (NO_DATA gpg) m), w')))
  /\ (forall fi fo w e w',
        decrypt_file gpg fi fo w = (Raise e, w') ->
        decrypt gpg (InData (new_from_fd (Data_new None) fi))
          (new_from_fd (Data_new None) fo) w = (Raise e, w')
        \/ (e = ValueError "No encrypted data" None
            /\ carried e = None
            /\ exists m, decrypt gpg (InData (new_from_fd (Data_new None) fi))
                           (new_from_fd (Data_new None) fo) w =
                         (Raise (GPGMEError (NO_DATA gpg) m), w')))
  (* nothing is swallowed *)
  /\ (forall pattern w e w',
        keylist gpg pattern w = (Broken e, w') ->
        exists e', find_key gpg pattern w = (Raise e', w'))
  /\ (forall pubkey w e w',
        op_import gpg (Data_new (Some pubkey)) w = (Raise e, w') ->
        import_key str gpg pubkey w = (Raise e, w'))
  /\ (forall pattern w e w',
        op_export gpg pattern 0%Z (Data_new None) w = (Raise e, w') ->
        export_key gpg pattern w = (Raise e, w'))
  /\ (forall data r t w e w',
        encrypt gpg (Data_new (Some data)) (normalize_recipients r)
          (Data_new None) t w = (Raise e, w') ->
        encrypt_text gpg data r t w = (Raise e, w'))
  /\ (forall fi fo r t w e w',
        encrypt gpg (new_from_fd (Data_new None) fi) (normalize_recipients r)
          (new_from_fd (Data_new None) fo) t w = (Raise e, w') ->
        encrypt_file gpg fi fo r t w = (Raise e, w'))
  /\ (forall data w e w',
        decrypt gpg (InStr data) (Data_new None) w = (Raise e, w') ->
        exists e', decrypt_text gpg data w = (Raise e', w'))
  /\ (forall fi fo w e w',
        decrypt gpg (InData (new_from_fd (Data_new None) fi))
          (new_from_fd (Data_new None) fo) w = (Raise e, w') ->
        exists e', decrypt_file gpg fi fo w = (Raise e', w'))
  (* nothing is retried *)
  /\ (forall pattern w log,
        snd (snd (find_key (traced gpg) pattern (w, log))) =
        (log ++ [Call_keylist pattern])%list)
  /\ (forall pubkey w log,
        exists rest,
          snd (snd (import_key str (traced gpg) pubkey (w, log))) =
          (log ++ Call_op_import (Data_new (Some pubkey)) :: rest)%list
          /\ (rest = [] \/ exists f, rest = [Call_keylist f]))
  /\ (forall pattern w log,
        snd (snd (export_key (traced gpg) pattern (w, log))) =
        (log ++ [Call_op_export pattern 0%Z (Data_new None)])%list)
  /\ (forall data r t w log,
        snd (snd (encrypt_text (traced gpg) data r t (w, log))) =
        (log ++ [Call_encrypt (Data_new (Some data)) (normalize_recipients r)
                   (Data_new None) t])%list)
  /\ (forall fi fo r t w log,
        snd (snd (encrypt_file (traced gpg) fi fo r t (w, log))) =
        (log ++ [Call_encrypt (new_from_fd (Data_new None) fi)
                   (normalize_recipients r)
                   (new_from_fd (Data_new None) fo) t])%list)
  /\ (forall data w log,
        snd (snd (decrypt_text (traced gpg) data (w, log))) =
        (log ++ [Call_decrypt (InStr data) (Data_new None)])%list)
  /\ (forall fi fo w log,
        snd (snd (decrypt_file (traced gpg) fi fo (w, log))) =
        (log ++ [Call_decrypt (InData (new_from_fd (Data_new None) fi))
                   (new_from_fd (Data_new None) fo)])%list)
  (* the lookup after an import *)
  /\ (forall r w e w',
        _get_imported_key str gpg r w = (Raise e, w') ->
        (exists msg, e = ValueError msg (Some r)
                     /\ carried e = Some (Detail_result r))
        \/ (exists f, first_fpr r = Ok f /\ keylist gpg f w = (Broken e, w')))
  /\ (forall r f w e w',
        first_fpr r = Ok f ->
        keylist gpg f w = (Broken e, w') ->
        exists e', _get_imported_key str gpg r w = (Raise e', w'))
  /\ (forall pubkey r f w w1 e w2,
        op_import gpg (Data_new (Some pubkey)) w = (Ok r, w1) ->
        considered r = Some 1%Z ->
        imported r = Some 1%Z ->
        first_fpr r = Ok f ->
        keylist gpg f w1 = (Broken e, w2) ->
        exists e', import_key str gpg pubkey w = (Raise e', w2))
  (* the construction: the first call that raises ends it, with that
     exception; every call is made at most once *)
  /\ (forall armor home_dir passphrase w,
        __init__ lib armor home_dir passphrase w =
        match new_context lib armor w with
        | (Raise e, w1) => (Raise e, w1)
        | (Ok c, w1) =>
            match
              match home_dir with
              | Some d => set_home_dir lib c d w1
              | None => (Ok c, w1)
              end
            with
            | (Raise e, w2) => (Raise e, w2)
            | (Ok c2, w2) =>
                match passphrase with
                | None => (Ok c2, w2)
                | Some p =>
                    match set_pinentry_mode lib c2
                            (PINENTRY_MODE_LOOPBACK lib) w2 with
                    | (Raise e, w3) => (Raise e, w3)
                    | (Ok c3, w3) => set_passphrase_cb lib c3 p w3
                    end
                end
            end
        end)
  /\ (forall armor home_dir passphrase w log,
        exists made left,
          snd (snd (__init__ (traced_lib lib) armor home_dir passphrase
                      (w, log))) = (log ++ made)%list
          /\ (made ++ left)%list =
             init_calls armor home_dir passphrase (PINENTRY_MODE_LOOPBACK lib)).
Proof.
  repeat match goal with |- _ /\ _ => split end.
  - intros. now apply find_key_raises.
  - intros pubkey w e w' H.
    destruct (import_key_raises str gpg _ _ _ _ H) as [He|(r & w1 & Hi & Hor)];
      [now left|].
    right. exists r, w1. split; [exact Hi|].
    destruct Hor as [Hm|[[msg ->]|Hb]];
      [now left | right; left; exists msg; now split | now right; right].
  - intros pattern w e w'. rewrite export_key_engine.
    destruct (op_export gpg pattern 0%Z (Data_new None) w) as [[d|e0] w0];
      intros H; inversion H; reflexivity.
  - intros. now apply encrypt_text_raises.
  - intros. now apply encrypt_file_raises.
  - intros data w e w' H.
    destruct (decrypt_text_raises gpg _ _ _ _ H) as [He|[-> Hm]]; auto.
  - intros fi fo w e w' H.
    destruct (decrypt_file_raises gpg _ _ _ _ _ H) as [He|[-> Hm]]; auto.
  - intros. now apply find_key_broken_raises with e.
  - intros. now apply import_key_engine_error.
  - intros pattern w e w' H. now rewrite export_key_engine, H.
  - intros. now apply encrypt_text_raises.
  - intros. now apply encrypt_file_raises.
  - intros data w e w' H. rewrite decrypt_text_as__decrypt.
    destruct (_decrypt_error_raises gpg _ _ _ _ _ H) as [e' ->]. eauto.
  - intros fi fo w e w' H. rewrite decrypt_file_as__decrypt.
    destruct (_decrypt_error_raises gpg _ _ _ _ _ H) as [e' ->]. eauto.
  - intros. apply find_key_log.
  - intros. apply import_key_log.
  - intros. apply export_key_log.
  - intros. apply encrypt_text_log.
  - intros. apply encrypt_file_log.
  - intros. apply decrypt_text_log.
  - intros. apply decrypt_file_log.
  - intros r w e w' H.
    destruct (_get_imported_key_raises str gpg _ _ _ _ H) as [[msg ->]|Hb];
      [left; exists msg; now split | now right].
  - intros. now apply _get_imported_key_broken_raises with f e.
  - intros. now apply import_key_broken_raises with r f w1 e.
  - intros. apply init_cases.
  - intros. apply init_log.
Qed.

End Policy.

(** C8 at work on the small engine: the failure of [decrypt_text] on plain
    text is traced back to the engine's error with the code [NO_DATA]; an
    error of the engine's import comes through [import_key] as it is; so
    does an error of the listing that follows an import. *)
Lemma failures_surface_witness :
  (decrypt Toy.gpg (InStr "hello world") (Data_new None) [] =
   (Raise (ValueError "No encrypted data" None), [])
   \/ (ValueError "No encrypted data" None = ValueError "No encrypted data" None
       /\ carried (ValueError "No encrypted data" None) = None
       /\ exists m, decrypt Toy.gpg (InStr "hello world") (Data_new None) [] =
                    (Raise (GPGMEError (NO_DATA Toy.gpg) m), [])))
  /\ import_key Toy.str (Toy.with_op_import (Raise (GPGMEError 1 "General error"))
                           Exhausted) "ABCD" [] =
     (Raise (GPGMEError 1 "General error"), [])
  /\ (exists e',
        import_key Toy.str
          (Toy.with_op_import (Ok (Toy.result 1 1 [ {| fpr := Some "ABCD" |} ]))
             (Broken (GPGMEError 1 "General error"))) "ABCD" [] =
        (Raise e', [])).
Proof.
  split; [|split].
  - destruct (failures_surface Toy.str Toy.gpg Toy.lib)
      as (_ & _ & _ & _ & _ & H & _).
    apply (H "hello world" [] (ValueError "No encrypted data" None) []).
    reflexivity.
  - destruct (failures_surface Toy.str
                (Toy.with_op_import (Raise (GPGMEError 1 "General error"))
                   Exhausted) Toy.lib)
      as (_ & _ & _ & _ & _ & _ & _ & _ & H & _).
    apply (H "ABCD" [] (GPGMEError 1 "General error") []). reflexivity.
  - destruct (failures_surface Toy.str
                (Toy.with_op_import
                   (Ok (Toy.result 1 1 [ {| fpr := Some "ABCD" |} ]))
                   (Broken (GPGMEError 1 "General error"))) Toy.lib)
      as (_ & _ & _ & _ & _ & _ & _ & _ & _ & _ & _ & _ & _ & _ & _ & _ & _
          & _ & _ & _ & _ & _ & _ & H & _).
    apply (H "ABCD" (Toy.result 1 1 [ {| fpr := Some "ABCD" |} ]) "ABCD"
             [] [] (GPGMEError 1 "General error") []); reflexivity.
Defined.

(** C8, as stated, fails: the engine refuses plain text with an error that
    has a code and a message; what [decrypt_text] raises in its place has
    neither that code nor any engine result among its arguments.  Likewise
    the [KeyError] of [find_key] carries the pattern alone. *)
Lemma failures_surface_counterexample :
  fst (decrypt Toy.gpg (InStr "hello world") (Data_new None) []) =
  Raise (GPGMEError 58 "No data")
  /\ fst (decrypt_text Toy.gpg "hello world" []) =
     Raise (ValueError "No encrypted data" None)
  /\ carried (ValueError "No encrypted data" None) = None
  /\ fst (find_key Toy.gpg "alice" ["ABCD"]) = Raise (KeyError "alice")
  /\ carried (KeyError "alice") = None.
Proof.
  repeat split.
Qed.

(** * Further properties of the facade *)

(** ** What the engine's [encrypt] is given *)

Section Sequences.
Context {Key W : Type} (gpg : Engine Key W).

Lemma normalize_recipients_sequence (r : value Key) :
  isinstance_list_tuple (normalize_recipients r) = true.
Proof.
  now destruct r.
Qed.

(** X1: whatever [recipients] is, what [_encrypt] hands to the engine is a
    list or a tuple, never [None] and never a bare object; normalizing twice
    changes nothing.  So every [encrypt] call that [encrypt_text] and
    [encrypt_file] make carries a list or a tuple. *)
Theorem recipients_always_sequence (r : value Key) :
  isinstance_list_tuple (normalize_recipients r) = true
  /\ normalize_recipients (normalize_recipients r) = normalize_recipients r
  /\ (forall data t w log,
        exists rs,
          snd (snd (encrypt_text (traced gpg) data r t (w, log))) =
          (log ++ [Call_encrypt (Data_new (Some data)) rs (Data_new None) t])%list
          /\ isinstance_list_tuple rs = true)
  /\ (forall fi fo t w log,
        exists rs,
          snd (snd (encrypt_file (traced gpg) fi fo r t (w, log))) =
          (log ++ [Call_encrypt (new_from_fd (Data_new None) fi) rs
                     (new_from_fd (Data_new None) fo) t])%list
          /\ isinstance_list_tuple rs = true).
Proof.
  split; [apply normalize_recipients_sequence|].
  split; [now destruct r|].
  split; intros; exists (normalize_recipients r);
    (split; [|apply normalize_recipients_sequence]).
  - apply encrypt_text_log.
  - apply encrypt_file_log.
Qed.

End Sequences.

(** ** Success is the engine's success *)

Section Success.
Context {Key W : Type} (str : exn -> string) (gpg : Engine Key W).

(** X2: [encrypt_text] returns exactly when the engine's [encrypt] does, and
    then returns the whole content of the sink, in the world the engine
    left; [encrypt_file] returns, with no value, exactly when the engine's
    [encrypt] on the two descriptor buffers does. *)
Theorem encrypt_returns (data : string) (fi fo : File) (r : value Key)
    (t : bool) (w w' : W) :
  (forall c,
     encrypt_text gpg data r t w = (Ok c, w') <->
     exists d,
       encrypt gpg (Data_new (Some data)) (normalize_recipients r)
         (Data_new None) t w = (Ok d, w')
       /\ content d = c)
  /\ (encrypt_file gpg fi fo r t w = (Ok tt, w') <->
      exists d,
        encrypt gpg (new_from_fd (Data_new None) fi) (normalize_recipients r)
          (new_from_fd (Data_new None) fo) t w = (Ok d, w')).
Proof.
  split; [intros c|].
  - rewrite encrypt_text_engine.
    destruct (encrypt gpg _ _ _ t w) as [[d|e] w0]; split.
    + intros H; inversion H; subst. now exists d.
    + intros (d' & H & <-). now inversion H.
    + discriminate.
    + intros (d' & H & _). discriminate H.
  - rewrite encrypt_file_engine.
    destruct (encrypt gpg _ _ _ t w) as [[d|e] w0]; split.
    + intros H; inversion H; subst. now exists d.
    + intros (d' & H). now inversion H.
    + discriminate.
    + intros (d' & H). discriminate H.
Qed.

(** X3: [decrypt_text] returns exactly when the engine's [decrypt] does, and
    then returns the whole content of the sink; [decrypt_file] likewise
    returns exactly when the engine's [decrypt] on the two descriptor buffers
    does.  The handler in [_decrypt] never turns a success into a failure or
    a failure into a success. *)
Theorem decrypt_returns (data : string) (fi fo : File) (w w' : W) :
  (forall p,
     decrypt_text gpg data w = (Ok p, w') <->
     exists d,
       decrypt gpg (InStr data) (Data_new None) w = (Ok d, w')
       /\ content d = p)
  /\ (decrypt_file gpg fi fo w = (Ok tt, w') <->
      exists d,
        decrypt gpg (InData (new_from_fd (Data_new None) fi))
          (new_from_fd (Data_new None) fo) w = (Ok d, w')).
Proof.
  split; [intros p|].
  - rewrite decrypt_text_as__decrypt, _decrypt_engine.
    destruct (decrypt gpg _ _ w) as [[d|e] w0]; split.
    + intros H; inversion H; subst. now exists d.
    + intros (d' & H & <-). now inversion H.
    + destruct e; try discriminate.
      destruct (code =? NO_DATA gpg)%Z; discriminate.
    + intros (d' & H & _). discriminate H.
  - rewrite decrypt_file_as__decrypt, _decrypt_engine.
    destruct (decrypt gpg _ _ w) as [[d|e] w0]; split.
    + intros H; inversion H; subst. now exists d.
    + intros (d' & H). now inversion H.
    + destruct e; try discriminate.
      destruct (code =? NO_DATA gpg)%Z; discriminate.
    + intros (d' & H). discriminate H.
Qed.

(** X4: [import_key] returns the pair of a key [k] and a result [r] exactly
    when the engine's import returned [r] with both counts 1, the first entry
    of [r.imports] (no other entry is looked at) has a fingerprint, and the
    engine's listing for that fingerprint, asked in the world the import
    left, yields [k] first. *)
Theorem import_key_returns (pubkey : string) (k : Key) (r : ImportResult)
    (w w2 : W) :
  import_key str gpg pubkey w = (Ok (k, r), w2) <->
  exists w1 st others f rest,
    op_import gpg (Data_new (Some pubkey)) w = (Ok r, w1)
    /\ considered r = Some 1%Z
    /\ imported r = Some 1%Z
    /\ imports r = Some (st :: others)
    /\ fpr st = Some f
    /\ keylist gpg f w1 = (Entry k rest, w2).
Proof.
  split.
  - intros H.
    destruct (op_import gpg (Data_new (Some pubkey)) w) as [[r0|e] w1] eqn:Hi.
    + destruct (import_key_ok_counts _ _ _ _ _ _ _ _ _ Hi H)
        as (Hc & Hm & -> & Hg).
      destruct (first_fpr r0) as [f|e] eqn:Hf.
      * rewrite (_get_imported_key_lookup _ _ _ _ _ Hf) in Hg.
        rewrite find_key_cases in Hg.
        destruct (keylist gpg f w1) as [[|k0 rest|e] w3] eqn:Hl.
        -- discriminate.
        -- inversion Hg; subst.
           unfold first_fpr, getattr in Hf.
           destruct (imports r0) as [[|st others]|] eqn:Him; try discriminate.
           destruct (fpr st) as [f0|] eqn:Hst; try discriminate.
           inversion Hf; subst.
           exists w1, st, others, f, rest. repeat split; assumption.
        -- destruct e; discriminate.
      * rewrite (_get_imported_key_no_fpr _ _ _ _ _ Hf) in Hg. discriminate.
    + rewrite (import_key_engine_error _ _ _ _ _ _ Hi) in H. discriminate.
  - intros (w1 & st & others & f & rest & Hi & Hc & Hm & Him & Hst & Hl).
    rewrite (import_key_counts_ok _ _ _ _ _ _ Hi Hc Hm).
    unfold bind, ret.
    assert (Hf : first_fpr r = Ok f).
    { unfold first_fpr, getattr. now rewrite Him, Hst. }
    rewrite (_get_imported_key_lookup _ _ _ _ _ Hf).
    now rewrite (find_key_entry _ _ _ _ _ _ Hl).
Qed.

End Success.

(** X2 at work on the small engine. *)
Lemma encrypt_returns_witness :
  encrypt_text Toy.gpg "hello" (VKey "ABCD") true ["ABCD"] =
  (Ok "PGP:hello", ["ABCD"])
  /\ encrypt_file Toy.gpg
       {| fileno := 3; fcontent := "hello"; fpos := 0 |}
       {| fileno := 4; fcontent := ""; fpos := 0 |}
       (VKey "ABCD") true ["ABCD"] = (Ok tt, ["ABCD"]).
Proof.
  destruct (encrypt_returns Toy.gpg "hello"
              {| fileno := 3; fcontent := "hello"; fpos := 0 |}
              {| fileno := 4; fcontent := ""; fpos := 0 |}
              (VKey "ABCD") true ["ABCD"] ["ABCD"]) as [Ht Hf].
  split.
  - apply (Ht "PGP:hello").
    exists {| source := Memory; content := "PGP:hello"; pos := 9 |}.
    split; reflexivity.
  - apply Hf.
    exists {| source := Descriptor 4; content := "PGP:hello"; pos := 9 |}.
    reflexivity.
Defined.

(** X3 at work on the small engine. *)
Lemma decrypt_returns_witness :
  decrypt_text Toy.gpg "PGP:hello" ["ABCD"] = (Ok "hello", ["ABCD"]).
Proof.
  destruct (decrypt_returns Toy.gpg "PGP:hello"
              {| fileno := 3; fcontent := ""; fpos := 0 |}
              {| fileno := 4; fcontent := ""; fpos := 0 |}
              ["ABCD"] ["ABCD"]) as [Ht _].
  apply (Ht "hello").
  exists {| source := Memory; content := "hello"; pos := 5 |}.
  split; reflexivity.
Defined.

(** X4 at work on the small engine: a second entry in [imports] plays no
    part. *)
Lemma import_key_returns_witness :
  import_key Toy.str
    (Toy.with_op_import
       (Ok (Toy.result 1 1 [ {| fpr := Some "ABCD" |}; {| fpr := None |} ]))
       (Entry "ABCD" (Entry "ABEF" Exhausted))) "payload" [] =
  (Ok ("ABCD",
       (Toy.result 1 1 [ {| fpr := Some "ABCD" |}; {| fpr := None |} ])),
   []).
Proof.
  apply import_key_returns.
  exists [], {| fpr := Some "ABCD" |}, [ {| fpr := None |} ], "ABCD",
    (Entry "ABEF" Exhausted).
  repeat split.
Defined.

(** ** Reading a buffer back *)

Lemma substring_nothing (n : nat) (s : string) : substring n 0 s = "".
Proof.
  revert n. induction s as [|c s IH]; intros [|n]; simpl; auto.
Qed.

(** X5: [_read_data] gives the whole content of a buffer wherever its offset
    is: after a seek to any place, and after the buffer has been read to the
    end, where a plain [read] would give the empty string. *)
Theorem read_data_whole (d : Data) (n : nat) (wh : whence) :
  _read_data (seek d n wh) = content d
  /\ _read_data (snd (read d)) = content d
  /\ fst (read (snd (read d))) = "".
Proof.
  split; [|split].
  - rewrite _read_data_content. unfold seek.
    now destruct (Nat.leb _ _).
  - now rewrite _read_data_content.
  - unfold read. simpl. rewrite Nat.sub_diag. apply substring_nothing.
Qed.

(** ** The world after an operation *)

Section Worlds.
Context {Key W : Type} (str : exn -> string) (gpg : Engine Key W).

(** X6: the facade keeps no state of its own and undoes nothing.  The world
    after an operation, whether it returned or raised, is the world its last
    call on the engine left: the one call for every operation but
    [import_key], and for [import_key] the import, followed by the listing
    when both counts were 1 and a fingerprint could be read. *)
Theorem world_after_operation :
  (forall pattern w,
     snd (find_key gpg pattern w) = snd (keylist gpg pattern w))
  /\ (forall pattern w,
        snd (export_key gpg pattern w) =
        snd (op_export gpg pattern 0%Z (Data_new None) w))
  /\ (forall data r t w,
        snd (encrypt_text gpg data r t w) =
        snd (encrypt gpg (Data_new (Some data)) (normalize_recipients r)
               (Data_new None) t w))
  /\ (forall fi fo r t w,
        snd (encrypt_file gpg fi fo r t w) =
        snd (encrypt gpg (new_from_fd (Data_new None) fi)
               (normalize_recipients r) (new_from_fd (Data_new None) fo) t w))
  /\ (forall data w,
        snd (decrypt_text gpg data w) =
        snd (decrypt gpg (InStr data) (Data_new None) w))
  /\ (forall fi fo w,
        snd (decrypt_file gpg fi fo w) =
        snd (decrypt gpg (InData (new_from_fd (Data_new None) fi))
               (new_from_fd (Data_new None) fo) w))
  /\ (forall pubkey w,
        snd (import_key str gpg pubkey w) =
        match op_import gpg (Data_new (Some pubkey)) w with
        | (Ok r, w1) =>
            match considered r, imported r with
            | Some 1%Z, Some 1%Z =>
                match first_fpr r with
                | Ok f => snd (keylist gpg f w1)
                | Raise _ => w1
                end
            | _, _ => w1
            end
        | (Raise _, w1) => w1
        end).
Proof.
  repeat match goal with |- _ /\ _ => split end.
  - intros. rewrite find_key_cases.
    destruct (keylist gpg pattern w) as [[|k rest|e] w']; try reflexivity.
    now destruct e.
  - intros. rewrite export_key_engine.
    now destruct (op_export gpg _ _ _ w) as [[d|e] w'].
  - intros. rewrite encrypt_text_engine.
    now destruct (encrypt gpg _ _ _ t w) as [[d|e] w'].
  - intros. rewrite encrypt_file_engine.
    now destruct (encrypt gpg _ _ _ t w) as [[d|e] w'].
  - intros. rewrite decrypt_text_as__decrypt, _decrypt_engine.
    destruct (decrypt gpg _ _ w) as [[d|e] w']; try reflexivity.
    destruct e; try reflexivity. now destruct (code =? NO_DATA gpg)%Z.
  - intros. rewrite decrypt_file_as__decrypt, _decrypt_engine.
    destruct (decrypt gpg _ _ w) as [[d|e] w']; try reflexivity.
    destruct e; try reflexivity. now destruct (code =? NO_DATA gpg)%Z.
  - intros.
    destruct (op_import gpg (Data_new (Some pubkey)) w) as [[r|e] w1] eqn:Hi.
    + rewrite (import_key_checked _ _ _ _ _ _ Hi). unfold getattr.
      destruct (considered r) as [c|]; [|reflexivity].
      destruct (c =? 1)%Z eqn:Hc; simpl.
      2:{ apply Z.eqb_neq in Hc.
          destruct c as [|[q|q|]|q]; try reflexivity; try now elim Hc.
          all: now destruct (imported r) as [[|[?|?|]|?]|]. }
      apply Z.eqb_eq in Hc. subst c.
      destruct (imported r) as [i|]; [|reflexivity].
      destruct (i =? 1)%Z eqn:Hm; simpl.
      2:{ apply Z.eqb_neq in Hm.
          destruct i as [|[q|q|]|q]; try reflexivity; now elim Hm. }
      apply Z.eqb_eq in Hm. subst i.
      unfold bind, ret.
      destruct (first_fpr r) as [f|e] eqn:Hf.
      * rewrite (_get_imported_key_lookup _ _ _ _ _ Hf), find_key_cases.
        destruct (keylist gpg f w1) as [[|k rest|e] w2]; try reflexivity.
        now destruct e.
      * now rewrite (_get_imported_key_no_fpr _ _ _ _ _ Hf).
    + now rewrite (import_key_engine_error _ _ _ _ _ _ Hi).
Qed.

End Worlds.

(** ** Export, then import *)

Section ExportImport.
Context {Key W Key' W' : Type} (str : exn -> string).
(* the exporting context, and the importing one *)
Variable gpg : Engine Key W.
Variable gpg' : Engine Key' W'.

(** X7: the bytes [export_key] returns are fit to be handed to [import_key]
    as they are.  If the importing engine takes what the exporting engine
    wrote as one key, imports it, and lists it under its fingerprint, then
    [import_key] on the result of [export_key] returns that key and that
    import result. *)
Theorem export_then_import (pattern : string) (w w1 : W) (w' w1' w2' : W')
    (d : Data) (r : ImportResult) (st : ImportStatus)
    (others : list ImportStatus) (f : string) (k : Key') (rest : listing Key') :
  op_export gpg pattern 0%Z (Data_new None) w = (Ok d, w1) ->
  op_import gpg' (Data_new (Some (content d))) w' = (Ok r, w1') ->
  considered r = Some 1%Z ->
  imported r = Some 1%Z ->
  imports r = Some (st :: others) ->
  fpr st = Some f ->
  keylist gpg' f w1' = (Entry k rest, w2') ->
  exists b,
    export_key gpg pattern w = (Ok b, w1)
    /\ import_key str gpg' b w' = (Ok (k, r), w2').
Proof.
  intros He Hi Hc Hm Him Hst Hl. exists (content d). split.
  - now rewrite export_key_engine, He.
  - rewrite (import_key_counts_ok _ _ _ _ _ _ Hi Hc Hm).
    unfold bind, ret.
    assert (Hf : first_fpr r = Ok f).
    { unfold first_fpr, getattr. now rewrite Him, Hst. }
    rewrite (_get_imported_key_lookup _ _ _ _ _ Hf).
    now rewrite (find_key_entry _ _ _ _ _ _ Hl).
Qed.

End ExportImport.

(** X7 at work on the small engine: a key exported from one keyring is
    imported into another. *)
Lemma export_then_import_witness :
  exists b,
    export_key Toy.gpg "ABCD" ["XY"; "ABCD"] = (Ok b, ["XY"; "ABCD"])
    /\ import_key Toy.str Toy.gpg b ["QR"] =
       (Ok ("ABCD", (Toy.result 1 1 [ {| fpr := Some "ABCD" |} ])),
        ["QR"; "ABCD"]).
Proof.
  apply (export_then_import Toy.str Toy.gpg Toy.gpg "ABCD"
           ["XY"; "ABCD"] ["XY"; "ABCD"] ["QR"] ["QR"; "ABCD"] ["QR"; "ABCD"]
           {| source := Memory; content := "ABCD"; pos := 4 |}
           (Toy.result 1 1 [ {| fpr := Some "ABCD" |} ])
           {| fpr := Some "ABCD" |} [] "ABCD" "ABCD" Exhausted);
    reflexivity.
Defined.

(** ** Exceptions that never leave the facade *)

Section Translated.
Context {Key W : Type} (str : exn -> string) (gpg : Engine Key W).

(** X8: [decrypt_text] and [decrypt_file] never raise an engine error with
    the code [NO_DATA]: a caller has that case to handle as [ValueError]
    only. *)
Theorem decrypt_never_no_data (data : string) (fi fo : File) (w w' : W)
    (e : exn) :
  (decrypt_text gpg data w = (Raise e, w') ->
   forall m, e <> GPGMEError (NO_DATA gpg) m)
  /\ (decrypt_file gpg fi fo w = (Raise e, w') ->
      forall m, e <> GPGMEError (NO_DATA gpg) m).
Proof.
  split.
  - rewrite decrypt_text_as__decrypt, _decrypt_engine.
    destruct (decrypt gpg _ _ w) as [[d|e0] w0]; [discriminate|].
    destruct e0 as [| | | | |code m0|];
      try (intros H m; inversion H; subst; discriminate).
    destruct (code =? NO_DATA gpg)%Z eqn:Hc; intros H m; inversion H; subst;
      [discriminate|].
    intros E. inversion E; subst. now rewrite Z.eqb_refl in Hc.
  - rewrite decrypt_file_as__decrypt, _decrypt_engine.
    destruct (decrypt gpg _ _ w) as [[d|e0] w0]; [discriminate|].
    destruct e0 as [| | | | |code m0|];
      try (intros H m; inversion H; subst; discriminate).
    destruct (code =? NO_DATA gpg)%Z eqn:Hc; intros H m; inversion H; subst;
      [discriminate|].
    intros E. inversion E; subst. now rewrite Z.eqb_refl in Hc.
Qed.

Lemma find_key_never_stops (pattern : string) (w w' : W) (e : exn) :
  find_key gpg pattern w = (Raise e, w') -> e <> StopIteration.
Proof.
  rewrite find_key_cases.
  destruct (keylist gpg pattern w) as [[|k rest|e0] w0].
  - intros H; inversion H; discriminate.
  - discriminate.
  - destruct e0; intros H; inversion H; discriminate.
Qed.

Lemma _get_imported_key_never (r : ImportResult) (w w' : W) (e : exn) :
  _get_imported_key str gpg r w = (Raise e, w') ->
  e <> StopIteration
  /\ (forall k, e <> KeyError k)
  /\ (forall m, e <> IndexError m)
  /\ (forall m, e <> AttributeError m).
Proof.
  destruct (first_fpr r) as [f|e0] eqn:Hf.
  - rewrite (_get_imported_key_lookup _ _ _ _ _ Hf).
    destruct (find_key gpg f w) as [[k|e1] w1] eqn:Hfind; [discriminate|].
    pose proof (find_key_never_stops _ _ _ _ Hfind) as Hs.
    destruct e1; intros H; inversion H; subst;
      repeat split; try discriminate; try assumption;
      intros; discriminate.
  - rewrite (_get_imported_key_no_fpr _ _ _ _ _ Hf).
    intros H; inversion H; subst. repeat split; intros; discriminate.
Qed.

Lemma import_key_inner_raise (pubkey : string) (w w' : W) (e : exn) :
  import_key str gpg pubkey w = (Raise e, w') ->
  op_import gpg (Data_new (Some pubkey)) w = (Raise e, w')
  \/ (exists r,
        op_import gpg (Data_new (Some pubkey)) w = (Ok r, w')
        /\ (considered r = None \/ (considered r = Some 1%Z /\ imported r = None))
        /\ exists m, e = AttributeError m)
  \/ (exists msg d, e = ValueError msg d)
  \/ (exists r w1, _get_imported_key str gpg r w1 = (Raise e, w')).
Proof.
  destruct (op_import gpg (Data_new (Some pubkey)) w) as [[r|e0] w1] eqn:Hi.
  - rewrite (import_key_checked _ _ _ _ _ _ Hi). unfold getattr.
    destruct (considered r) as [c|] eqn:Hc.
    2:{ intros H; inversion H; subst. right. left. exists r.
        repeat split; eauto. }
    destruct (c =? 1)%Z eqn:Hc1; simpl.
    2:{ intros H; inversion H; subst. right. right. left. eauto. }
    apply Z.eqb_eq in Hc1. subst c.
    destruct (imported r) as [i|] eqn:Hm.
    2:{ intros H; inversion H; subst. right. left. exists r.
        repeat split; eauto. }
    destruct (i =? 1)%Z; simpl.
    2:{ intros H; inversion H; subst. right. right. left. eauto. }
    unfold bind, ret.
    destruct (_get_imported_key str gpg r w1) as [[k|e1] w2] eqn:Hg;
      [discriminate|].
    intros H; inversion H; subst. right. right. right. eauto.
  - rewrite (import_key_engine_error _ _ _ _ _ _ Hi).
    intros H; inversion H; subst. now left.
Qed.

(** X9: the exceptions of the lookup stay inside.  [find_key] never raises
    [StopIteration]; [_get_imported_key] never raises [StopIteration],
    [KeyError], [IndexError] or [AttributeError].  When [import_key] raises
    [StopIteration], [KeyError] or [IndexError], it is the engine's import
    itself that raised it; when it raises [AttributeError], it is the
    engine's import that raised it, or the result of the import has no count
    [considered], or has 1 there and no count [imported]. *)
Theorem lookup_errors_stay_inside :
  (forall pattern w e w',
     find_key gpg pattern w = (Raise e, w') -> e <> StopIteration)
  /\ (forall r w e w',
        _get_imported_key str gpg r w = (Raise e, w') ->
        e <> StopIteration
        /\ (forall k, e <> KeyError k)
        /\ (forall m, e <> IndexError m)
        /\ (forall m, e <> AttributeError m))
  /\ (forall pubkey w e w',
        import_key str gpg pubkey w = (Raise e, w') ->
        (e = StopIteration
         \/ (exists k, e = KeyError k)
         \/ (exists m, e = IndexError m)) ->
        op_import gpg (Data_new (Some pubkey)) w = (Raise e, w'))
  /\ (forall pubkey w e w',
        import_key str gpg pubkey w = (Raise e, w') ->
        (exists m, e = AttributeError m) ->
        op_import gpg (Data_new (Some pubkey)) w = (Raise e, w')
        \/ exists r,
             op_import gpg (Data_new (Some pubkey)) w = (Ok r, w')
             /\ (considered r = None
                 \/ (considered r = Some 1%Z /\ imported r = None))).
Proof.
  split; [|split; [|split]].
  - intros. now apply find_key_never_stops with pattern w w'.
  - intros. now apply _get_imported_key_never with r w w'.
  - intros pubkey w e w' H Hcls.
    destruct (import_key_inner_raise _ _ _ _ H)
      as [He|[(r & _ & _ & m & ->)|[(msg & d & ->)|(r & w1 & Hg)]]].
    + exact He.
    + destruct Hcls as [Hx|[[x Hx]|[x Hx]]]; discriminate Hx.
    + destruct Hcls as [Hx|[[x Hx]|[x Hx]]]; discriminate Hx.
    + destruct (_get_imported_key_never _ _ _ _ Hg) as (H1 & H2 & H3 & _).
      destruct Hcls as [->|[[x ->]|[x ->]]];
        [now elim H1 | now elim (H2 x) | now elim (H3 x)].
  - intros pubkey w e w' H [m ->].
    destruct (import_key_inner_raise _ _ _ _ H)
      as [He|[(r & Hi & Hmiss & _)|[(msg & d & Hx)|(r & w1 & Hg)]]].
    + now left.
    + right. now exists r.
    + discriminate Hx.
    + destruct (_get_imported_key_never _ _ _ _ Hg) as (_ & _ & _ & H4).
      now elim (H4 m).
Qed.

End Translated.

(** X8 at work on the small engine. *)
Lemma decrypt_never_no_data_witness :
  ValueError "No encrypted data" None <> GPGMEError (NO_DATA Toy.gpg) "No data".
Proof.
  destruct (decrypt_never_no_data Toy.gpg "hello world"
              {| fileno := 3; fcontent := ""; fpos := 0 |}
              {| fileno := 4; fcontent := ""; fpos := 0 |}
              [] [] (ValueError "No encrypted data" None)) as [H _].
  apply H. reflexivity.
Defined.

(** X9 at work on the small engine: an engine whose import raises
    [KeyError] is the one way for [import_key] to raise it; and the
    [AttributeError] of an import that hands back [None] is traced to the
    missing count. *)
Lemma lookup_errors_stay_inside_witness :
  op_import (Toy.with_op_import (Raise (KeyError "no such file")) Exhausted)
    (Data_new (Some "payload")) [] = (Raise (KeyError "no such file"), [])
  /\ (op_import (Toy.with_op_import (Ok Toy.none) Exhausted)
        (Data_new (Some "payload")) [] =
      (Raise (AttributeError "'NoneType' object has no attribute 'considered'"),
       [])
      \/ exists r,
           op_import (Toy.with_op_import (Ok Toy.none) Exhausted)
             (Data_new (Some "payload")) [] = (Ok r, [])
           /\ (considered r = None
               \/ (considered r = Some 1%Z /\ imported r = None))).
Proof.
  split.
  - destruct (lookup_errors_stay_inside Toy.str
                (Toy.with_op_import (Raise (KeyError "no such file")) Exhausted))
      as (_ & _ & H & _).
    apply (H "payload" [] (KeyError "no such file") []).
    + reflexivity.
    + right. left. now exists "no such file".
  - destruct (lookup_errors_stay_inside Toy.str
                (Toy.with_op_import (Ok Toy.none) Exhausted))
      as (_ & _ & _ & H).
    apply (H "payload" []
             (AttributeError "'NoneType' object has no attribute 'considered'")
             []).
    + reflexivity.
    + now exists "'NoneType' object has no attribute 'considered'".
Defined.
